(** * CACD metadata analyzer: a shallow embedding and its specification

    The program under study is [cacd_metadata_analyzer.py]: a keyword
    classifier over a taxonomy, a tag generator, a relevance scorer, a
    connection finder, and the review-file protocol that writes suggestions
    to a Markdown file and merges approved ones back into note headers.

    Python values are embedded as follows.
    - [str] is a list of Unicode code points ([N]); literals are written
      with [u "..."], which decodes the UTF-8 bytes of a Rocq string.
    - [dict] is an association list in insertion order (CPython >= 3.7).
    - [float] confidences are exact rationals ([Q]); CPython computes the
      binary64 rounding of the same expressions.
    - exceptions are [option]/[sum] results with the state reached so far.
    - the Unicode character database, the iteration order of [set] and the
      YAML library are parameters of the development. *)

From Stdlib Require Import List NArith ZArith QArith Qminmax Bool Lia.
From Stdlib Require Import String Ascii Permutation DecimalString.
Import ListNotations.
Set Warnings "-register-all".
Close Scope Q_scope.
Open Scope nat_scope.

(** * Part I: the program *)

(** ** Python strings *)

Module Py.

Definition char := N.
Definition str := list char.

Fixpoint str_eqb (a b : str) : bool :=
  match a, b with
  | [], [] => true
  | x :: a', y :: b' => N.eqb x y && str_eqb a' b'
  | _, _ => false
  end.

(** UTF-8 decoding of a byte sequence, used only to write literals. *)
Fixpoint utf8 (bs : list N) : str :=
  match bs with
  | [] => []
  | b :: r =>
    if (b <? 128)%N then b :: utf8 r
    else match r with
    | [] => [b]
    | b1 :: r1 =>
      if (b <? 224)%N then ((b - 192) * 64 + (b1 - 128))%N :: utf8 r1
      else match r1 with
      | [] => [b]
      | b2 :: r2 =>
        if (b <? 240)%N
        then ((b - 224) * 4096 + (b1 - 128) * 64 + (b2 - 128))%N :: utf8 r2
        else match r2 with
        | [] => [b]
        | b3 :: r3 =>
          ((b - 240) * 262144 + (b1 - 128) * 4096
           + (b2 - 128) * 64 + (b3 - 128))%N :: utf8 r3
        end
      end
    end
  end.

Definition u (s : string) : str :=
  utf8 (map N_of_ascii (list_ascii_of_string s)).

Definition SP : char := 32%N.
Definition NL : char := 10%N.

(** [str.isspace] on one character; the regular expression class [\s]
    of a [str] pattern is the same set. *)
Definition is_space (c : char) : bool :=
  existsb (N.eqb c)
    [9; 10; 11; 12; 13; 28; 29; 30; 31; 32; 133; 160; 5760;
     8192; 8193; 8194; 8195; 8196; 8197; 8198; 8199; 8200; 8201; 8202;
     8232; 8233; 8239; 8287; 12288]%N.

(** [s.startswith(p)] *)
Fixpoint startswith (p s : str) : bool :=
  match p, s with
  | [], _ => true
  | x :: p', y :: s' => N.eqb x y && startswith p' s'
  | _ :: _, [] => false
  end.

(** [sub in s] *)
Fixpoint contains (sub s : str) : bool :=
  startswith sub s ||
  match s with
  | [] => false
  | _ :: s' => contains sub s'
  end.

(** [sep.join(ws)] *)
Fixpoint join (sep : str) (ws : list str) : str :=
  match ws with
  | [] => []
  | [w] => w
  | w :: ws' => w ++ sep ++ join sep ws'
  end.

(** [s.split(c)] for a one-character separator: never empty, fields may be. *)
Fixpoint split_char (c : char) (s : str) : list str :=
  match s with
  | [] => [[]]
  | x :: r =>
    match split_char c r with
    | w :: ws => if N.eqb x c then [] :: w :: ws else (x :: w) :: ws
    | [] => [[]]
    end
  end.

(** [s.split()]: maximal runs of non-whitespace. [words s] is the run that
    starts at the head of [s] together with the later runs. *)
Fixpoint words (s : str) : str * list str :=
  match s with
  | [] => ([], [])
  | c :: r =>
    let (w, ws) := words r in
    if is_space c
    then ([], match w with [] => ws | _ => w :: ws end)
    else (c :: w, ws)
  end.

Definition split_ws (s : str) : list str :=
  let (w, ws) := words s in
  match w with [] => ws | _ => w :: ws end.

(** [s.lstrip()], [s.rstrip()], [s.strip()] *)
Fixpoint lstrip (s : str) : str :=
  match s with
  | c :: r => if is_space c then lstrip r else s
  | [] => []
  end.

Definition rstrip (s : str) : str := rev (lstrip (rev s)).
Definition strip (s : str) : str := rstrip (lstrip s).

(** [s.split(sep, maxsplit)] for a non-empty separator; [limit = None]
    is an unbounded number of splits.  [skip] counts the characters of a
    separator occurrence still to be dropped, [acc] is the current field
    in reverse. *)
Fixpoint split_sep_go (sep : str) (limit : option nat) (skip : nat)
    (acc : str) (s : str) : list str :=
  match s with
  | [] => [rev acc]
  | c :: r =>
    match skip with
    | S k => split_sep_go sep limit k acc r
    | O =>
      let allowed := match limit with Some O => false | _ => true end in
      if allowed && startswith sep s
      then rev acc ::
           split_sep_go sep (option_map Nat.pred limit)
             (Nat.pred (List.length sep)) [] r
      else split_sep_go sep limit O (c :: acc) r
    end
  end.

Definition split_sep (sep : str) (limit : option nat) (s : str) : list str :=
  split_sep_go sep limit O [] s.

(** [s.replace(old, new)] for a non-empty [old]. *)
Definition replace (old new s : str) : str :=
  join new (split_sep old None s).

End Py.
Import Py.

(** ** Python dictionaries *)

Module Dict.
Section WithValues.
Context {V : Type}.

Definition t := list (str * V).

Fixpoint get (d : t) (k : str) : option V :=
  match d with
  | [] => None
  | (k', v) :: d' => if str_eqb k' k then Some v else get d' k
  end.

(** [d[k] = v]: an existing key keeps its position. *)
Fixpoint set (d : t) (k : str) (v : V) : t :=
  match d with
  | [] => [(k, v)]
  | (k', v') :: d' =>
    if str_eqb k' k then (k', v) :: d' else (k', v') :: set d' k v
  end.

Fixpoint remove (d : t) (k : str) : t :=
  match d with
  | [] => []
  | (k', v') :: d' =>
    if str_eqb k' k then d' else (k', v') :: remove d' k
  end.

(** [d.update(e)] *)
Definition update (d e : t) : t :=
  fold_left (fun acc kv => set acc (fst kv) (snd kv)) e d.

Definition mem (d : t) (k : str) : bool :=
  match get d k with Some _ => true | None => false end.
End WithValues.
Arguments t : clear implicits.
End Dict.

(** ** The Unicode character database

    [_normalize_text] calls into CPython's Unicode tables four times.
    They are a parameter: [nfd] is [unicodedata.normalize('NFD', s)],
    [is_mark c] is [unicodedata.category(c) == 'Mn'], [lower] is
    [str.lower] and [is_word] is the class [\w] of the [re] module. *)

Record Unicode := {
  nfd : str -> str;
  is_mark : char -> bool;
  lower : str -> str;
  is_word : char -> bool
}.

(** A concrete database for text over U+0000..U+00FF (Basic Latin and
    Latin-1 Supplement) and the combining marks U+0300..U+036F, transcribed
    from Unicode 14.  Other code points are treated as unassigned. *)
Module Latin1.

Definition decomposition : list (N * list N) :=
  [(192, [65; 768]); (193, [65; 769]); (194, [65; 770]); (195, [65; 771]);
   (196, [65; 776]); (197, [65; 778]); (199, [67; 807]); (200, [69; 768]);
   (201, [69; 769]); (202, [69; 770]); (203, [69; 776]); (204, [73; 768]);
   (205, [73; 769]); (206, [73; 770]); (207, [73; 776]); (209, [78; 771]);
   (210, [79; 768]); (211, [79; 769]); (212, [79; 770]); (213, [79; 771]);
   (214, [79; 776]); (217, [85; 768]); (218, [85; 769]); (219, [85; 770]);
   (220, [85; 776]); (221, [89; 769]); (224, [97; 768]); (225, [97; 769]);
   (226, [97; 770]); (227, [97; 771]); (228, [97; 776]); (229, [97; 778]);
   (231, [99; 807]); (232, [101; 768]); (233, [101; 769]); (234, [101; 770]);
   (235, [101; 776]); (236, [105; 768]); (237, [105; 769]); (238, [105; 770]);
   (239, [105; 776]); (241, [110; 771]); (242, [111; 768]); (243, [111; 769]);
   (244, [111; 770]); (245, [111; 771]); (246, [111; 776]); (249, [117; 768]);
   (250, [117; 769]); (251, [117; 770]); (252, [117; 776]); (253, [121; 769]);
   (255, [121; 776]);
   (832, [768]); (833, [769]); (835, [787]); (836, [776; 769])]%N.

Fixpoint assoc (t : list (N * list N)) (c : N) : option (list N) :=
  match t with
  | [] => None
  | (k, v) :: t' => if N.eqb k c then Some v else assoc t' c
  end.

Definition decompose (c : char) : str :=
  match assoc decomposition c with
  | Some d => d
  | None => [c]
  end.

Definition in_range (lo hi c : N) : bool := (lo <=? c)%N && (c <=? hi)%N.

Definition lower_char (c : char) : char :=
  if in_range 65 90 c
     || (in_range 192 222 c && negb (N.eqb c 215))
  then (c + 32)%N else c.

Definition word_char (c : char) : bool :=
  in_range 48 57 c || in_range 65 90 c || N.eqb c 95 || in_range 97 122 c
  || existsb (N.eqb c) [170; 178; 179; 181; 185; 186; 188; 189; 190]%N
  || (in_range 192 255 c && negb (N.eqb c 215) && negb (N.eqb c 247)).

Definition db : Unicode := {|
  nfd := flat_map decompose;
  is_mark := in_range 768 879;
  lower := map lower_char;
  is_word := word_char
|}.

End Latin1.

(** ** Taxonomy index ([CACDTaxonomyAnalyzer]) *)

(** The taxonomy as [yaml.safe_load] returns it: a mapping from area to
    content.  The code looks inside a content only when it is a mapping,
    inside a topic entry only when it is a list, and at a topic only when
    it is a string. *)
Inductive topic_item := TopicStr (s : str) | TopicOther.
Inductive topics := TopicList (l : list topic_item) | TopicsOther.
Inductive area_content := Subareas (d : list (str * topics)) | ContentOther.
Definition taxonomy := list (str * area_content).

(** A label path [(area, subarea, topic)]. *)
Definition label := (str * option str * option str)%type.

Definition ostr_eqb (a b : option str) : bool :=
  match a, b with
  | None, None => true
  | Some x, Some y => str_eqb x y
  | _, _ => false
  end.

Definition label_eqb (a b : label) : bool :=
  let '(a1, a2, a3) := a in
  let '(b1, b2, b3) := b in
  str_eqb a1 b1 && ostr_eqb a2 b2 && ostr_eqb a3 b3.

Section TaxonomyAnalyzer.
Variable U : Unicode.

(** [re.sub(r'[^\w\s]', ' ', s)] *)
Definition sub_nonword (s : str) : str :=
  map (fun c => if is_word U c || is_space c then c else SP) s.

Definition strip_marks (s : str) : str :=
  filter (fun c => negb (is_mark U c)) s.

Definition _normalize_text (text : str) : str :=
  match text with
  | [] => []
  | _ =>
    let text := nfd U text in
    let text := strip_marks text in
    let text := sub_nonword (lower U text) in
    join [SP] (split_ws text)
  end.

(** [keyword_map[word].append(l)] on a [defaultdict(list)] *)
Definition kw_append (km : Dict.t (list label)) (word : str) (l : label)
  : Dict.t (list label) :=
  Dict.set km word
    (match Dict.get km word with Some ls => ls ++ [l] | None => [l] end).

(** the loop [for word in norm.split(): if len(word) > 2: ...] *)
Definition add_words (km : Dict.t (list label)) (name : str) (l : label)
  : Dict.t (list label) :=
  fold_left
    (fun km word =>
       if 2 <? List.length word then kw_append km word l else km)
    (split_ws (_normalize_text name)) km.

Definition add_topics (km : Dict.t (list label)) (area subarea : str)
    (ts : topics) : Dict.t (list label) :=
  match ts with
  | TopicList l =>
    fold_left
      (fun km t =>
         match t with
         | TopicStr topic =>
           add_words km topic (area, Some subarea, Some topic)
         | TopicOther => km
         end) l km
  | TopicsOther => km
  end.

Definition add_subareas (km : Dict.t (list label)) (area : str)
    (content : area_content) : Dict.t (list label) :=
  match content with
  | Subareas d =>
    fold_left
      (fun km st =>
         add_topics (add_words km (fst st) (area, Some (fst st), None))
           area (fst st) (snd st)) d km
  | ContentOther => km
  end.

Definition _build_keyword_map (tax : taxonomy) : Dict.t (list label) :=
  fold_left
    (fun km ac =>
       add_subareas (add_words km (fst ac) (fst ac, None, None))
         (fst ac) (snd ac)) tax [].

(** [matches[key] += 1] on a [defaultdict(int)] keyed by label *)
Fixpoint bump (m : list (label * nat)) (l : label) : list (label * nat) :=
  match m with
  | [] => [(l, 1)]
  | (l', n) :: m' =>
    if label_eqb l' l then (l', S n) :: m' else (l', n) :: bump m' l
  end.

Definition count_matches (km : Dict.t (list label)) (ws : list str)
  : list (label * nat) :=
  fold_left
    (fun m word =>
       match Dict.get km word with
       | Some ls => fold_left bump ls m
       | None => m
       end) ws [].

(** [max(items, key=lambda x: x[1])]: the first item of maximal count *)
Fixpoint best_of (cur : label * nat) (rest : list (label * nat))
  : label * nat :=
  match rest with
  | [] => cur
  | x :: r => if snd cur <? snd x then best_of x r else best_of cur r
  end.

(** [min(score / max(len(words) * 0.1, 1), 1.0)] *)
Definition confidence_of (score nwords : nat) : Q :=
  Qmin (inject_Z (Z.of_nat score)
        / Qmax (inject_Z (Z.of_nat nwords) * (1 # 10)) 1) 1.

Definition classification := (option str * option str * option str * Q)%type.

Definition classify_text (km : Dict.t (list label)) (text title : str)
  : classification :=
  let combined_text := strip (title ++ [SP] ++ text) in
  let normalized_text := _normalize_text combined_text in
  match normalized_text with
  | [] => (None, None, None, 0%Q)
  | _ =>
    let ws := split_ws normalized_text in
    match count_matches km ws with
    | [] => (None, None, None, 0%Q)
    | m0 :: m =>
      let '((area, subarea, topic), score) := best_of m0 m in
      (Some area, subarea, topic, confidence_of score (List.length ws))
    end
  end.

End TaxonomyAnalyzer.

(** ** Header values, notes, suggestions and configuration *)

(** A value of a structured header as [yaml.safe_load] returns it. *)
Inductive value :=
| VNone
| VBool (b : bool)
| VInt (z : Z)
| VFloat (q : Q)
| VStr (s : str)
| VList (l : list value)
| VDict (d : list (str * value)).

(** Python truthiness, [bool(v)] *)
Definition truthy (v : value) : bool :=
  match v with
  | VNone => false
  | VBool b => b
  | VInt z => negb (z =? 0)%Z
  | VFloat q => negb (Qeq_bool q 0)
  | VStr s => match s with [] => false | _ => true end
  | VList l => match l with [] => false | _ => true end
  | VDict d => match d with [] => false | _ => true end
  end.

(** [v == o] for a header value and an optional label *)
Definition value_eq_label (v : value) (o : option str) : bool :=
  match v, o with
  | VNone, None => true
  | VStr s, Some s' => str_eqb s s'
  | _, _ => false
  end.

(** [fm.get(k)] *)
Definition fm_get (fm : Dict.t value) (k : str) : value :=
  match Dict.get fm k with Some v => v | None => VNone end.

Module Note.
Record t := {
  id : str;
  title : str;
  content : str;
  frontmatter : Dict.t value;
  file_path : str
}.
Definition with_frontmatter (n : t) (fm : Dict.t value) : t :=
  {| id := id n; title := title n; content := content n;
     frontmatter := fm; file_path := file_path n |}.
End Note.

Module Suggestion.
Record t := {
  note_id : str;
  area : option str;
  subarea : option str;
  topico : option str;
  tags : list str;
  relevancia_cacd : option Z;
  conexoes : list str;
  confidence : Q
}.
End Suggestion.

Record Config := {
  min_content_length : nat;
  max_tags : nat;
  relevancia_threshold : Q;
  conexoes_max : Z;
  feedback_file : str;
  cache_file : str;
  backup_original : bool
}.

Definition _default_config : Config := {|
  min_content_length := 50;
  max_tags := 5;
  relevancia_threshold := 3 # 10;
  conexoes_max := 3;
  feedback_file := u "cacd_feedback.md";
  cache_file := u ".cacd_cache.json";
  backup_original := true
|}.

(** ** Tag generator ([CACDTagGenerator]) *)

Definition area_tags : Dict.t (list str) :=
  [(u "Língua Portuguesa",
    [u "gramática"; u "ortografia"; u "redação"; u "literatura"; u "linguística"]);
   (u "Língua Inglesa",
    [u "inglês"; u "tradução"; u "gramática-inglesa"; u "vocabulário"]);
   (u "História do Brasil",
    [u "brasil"; u "colônia"; u "império"; u "república"; u "política-brasileira"]);
   (u "História Mundial",
    [u "internacional"; u "guerra"; u "revolução"; u "imperialismo"; u "ideologia"]);
   (u "Política Internacional",
    [u "diplomacia"; u "relações-internacionais"; u "onu"; u "mercosul";
     u "geopolítica"]);
   (u "Geografia",
    [u "território"; u "população"; u "economia-espacial"; u "meio-ambiente";
     u "urbanização"]);
   (u "ECONOMIA",
    [u "macroeconomia"; u "microeconomia"; u "política-fiscal";
     u "comércio-internacional"; u "desenvolvimento"]);
   (u "DIREITO",
    [u "constitucional"; u "administrativo"; u "internacional-público";
     u "tratados"; u "soberania"]);
   (u "LÍNGUA ESPANHOLA",
    [u "espanhol"; u "tradução-espanhol"; u "america-latina"]);
   (u "LÍNGUA FRANCESA",
    [u "francês"; u "tradução-francês"; u "francofonia"])].

Definition keyword_tags : list (str * str) :=
  [(u "constituição", u "constitucional");
   (u "mercosul", u "integração-regional");
   (u "onu", u "multilateralismo");
   (u "guerra", u "conflitos");
   (u "paz", u "paz-segurança");
   (u "economia", u "análise-econômica");
   (u "política", u "ciência-política");
   (u "diplomacia", u "ação-diplomática");
   (u "território", u "geografia-política");
   (u "população", u "demografia");
   (u "meio ambiente", u "sustentabilidade");
   (u "brasil", u "brasil-estudos");
   (u "direitos humanos", u "direitos-humanos");
   (u "comércio", u "comércio-internacional")].

(** The iteration order of a Python [set] of strings is unspecified: it is
    some arrangement of the elements. *)
Record SetOrder := {
  arrange : list str -> list str;
  arrange_perm : forall l, Permutation (arrange l) l
}.

Definition insertion_order : SetOrder :=
  {| arrange := fun l => l; arrange_perm := @Permutation_refl str |}.

(** [tags.add(t)], the set kept as a duplicate-free list *)
Definition set_add (tags : list str) (t : str) : list str :=
  if existsb (str_eqb t) tags then tags else tags ++ [t].

Section TagGenerator.
Variable U : Unicode.
Variable ord : SetOrder.

Definition wordb (c : option char) : bool :=
  match c with Some c => is_word U c | None => false end.

(** One alternative of [\b(a1|a2|...)\b] at the current position, [prev]
    being the character before it. *)
Definition match_alt_at (prev : option char) (s : str) (a : str) : bool :=
  startswith a s
  && xorb (wordb prev) (wordb (hd_error s))
  && xorb (wordb (match rev a with c :: _ => Some c | [] => prev end))
          (wordb (hd_error (skipn (List.length a) s))).

(** [re.search(r'\b(a1|a2|...)\b', s)] finds a match *)
Fixpoint search_from (alts : list str) (prev : option char) (s : str) : bool :=
  existsb (match_alt_at prev s) alts ||
  match s with
  | [] => false
  | c :: r => search_from alts (Some c) r
  end.

Definition search_words (alts : list str) (s : str) : bool :=
  search_from alts None s.

(** The set of tags before it is listed and truncated. *)
Definition tag_set (text title : str) (area : option str) : list str :=
  let combined_text := lower U (title ++ [SP] ++ text) in
  let tags : list str := [] in
  let tags :=
    match area with
    | Some ((_ :: _) as a) =>
      match Dict.get area_tags a with
      | Some area_words =>
        fold_left
          (fun tags tag =>
             if existsb (fun word => contains word combined_text)
                  (split_char 45%N tag)
             then set_add tags tag else tags)
          (firstn 2 area_words) tags
      | None => tags
      end
    | _ => tags
    end in
  let tags :=
    fold_left
      (fun tags kt =>
         if contains (fst kt) combined_text
         then set_add tags (snd kt) else tags)
      keyword_tags tags in
  let tags :=
    if search_words [u "tratado"; u "acordo"; u "convenção"] combined_text
    then set_add tags (u "instrumentos-jurídicos") else tags in
  let tags :=
    if search_words [u "guerra"; u "conflito"; u "paz"] combined_text
    then set_add tags (u "segurança-internacional") else tags in
  let tags :=
    if search_words [u "desenvolvimento"; u "crescimento"; u "econômico"]
         combined_text
    then set_add tags (u "desenvolvimento-econômico") else tags in
  tags.

Definition generate_tags (text title : str) (area : option str) : list str :=
  firstn 5 (arrange ord (tag_set text title area)).

End TagGenerator.

(** ** The analyzer ([CACDMetadataAnalyzer]) *)

Definition high_priority_areas : list str :=
  [u "Política Internacional"; u "História do Brasil";
   u "DIREITO"; u "ECONOMIA"; u "Geografia"].

(** [not area] *)
Definition area_missing (area : option str) : bool :=
  match area with
  | None | Some [] => true
  | Some (_ :: _) => false
  end.

(** [area in high_priority_areas] *)
Definition high_priority (area : option str) : bool :=
  match area with
  | Some a => existsb (str_eqb a) high_priority_areas
  | None => false
  end.

Definition Qltb (a b : Q) : bool := negb (Qle_bool b a).

Section Analyzer.
Variable U : Unicode.
Variable ord : SetOrder.
Variable config : Config.
Variable tax : taxonomy.

Definition keyword_map : Dict.t (list label) := _build_keyword_map U tax.

Definition has_field (fm : Dict.t value) (field : str) : bool :=
  match Dict.get fm field with
  | Some v => truthy v
  | None => false
  end.

Definition _has_complete_metadata (note : Note.t) : bool :=
  forallb (has_field (Note.frontmatter note)) [u "area"; u "relevancia_cacd"].

Definition _calculate_relevancia_cacd (note : Note.t) (area : option str)
    (confidence : Q) : Z :=
  if area_missing area || Qltb confidence (relevancia_threshold config)
  then 1%Z
  else
    let base_score := 3%Z in
    let base_score :=
      if high_priority area then (base_score + 1)%Z else base_score in
    let base_score :=
      if Qltb (7 # 10) confidence then (base_score + 1)%Z
      else if Qltb confidence (4 # 10) then (base_score - 1)%Z
      else base_score in
    let content_length := List.length (Note.content note) in
    let base_score :=
      if 1000 <? content_length then (base_score + 1)%Z
      else if content_length <? 200 then (base_score - 1)%Z
      else base_score in
    Z.max 1 (Z.min 5 base_score).

(** [other_area == area or other_subarea == subarea] *)
Definition related (other : Note.t) (area subarea : option str) : bool :=
  value_eq_label (fm_get (Note.frontmatter other) (u "area")) area
  || value_eq_label (fm_get (Note.frontmatter other) (u "subarea")) subarea.

(** The loop of [_suggest_connections] over the remaining store items. *)
Fixpoint connect (note : Note.t) (area subarea : option str)
    (items : list (str * Note.t)) (connections : list str) : list str :=
  match items with
  | [] => connections
  | (other_note_id, other_note) :: rest =>
    if str_eqb other_note_id (Note.id note)
    then connect note area subarea rest connections
    else if related other_note area subarea
    then
      let connections := connections ++ [Note.title other_note] in
      if (conexoes_max config <=? Z.of_nat (List.length connections))%Z
      then connections
      else connect note area subarea rest connections
    else connect note area subarea rest connections
  end.

Definition _suggest_connections (notes : Dict.t Note.t) (note : Note.t)
    (area subarea : option str) : list str :=
  connect note area subarea notes [].

Definition analyze_note (notes : Dict.t Note.t) (note : Note.t)
  : Suggestion.t :=
  if _has_complete_metadata note
  then {| Suggestion.note_id := Note.id note;
          Suggestion.area := None; Suggestion.subarea := None;
          Suggestion.topico := None; Suggestion.tags := [];
          Suggestion.relevancia_cacd := None; Suggestion.conexoes := [];
          Suggestion.confidence := 1 |}
  else
    let '(area, subarea, topico, confidence) :=
      classify_text U keyword_map (Note.content note) (Note.title note) in
    let tags := generate_tags U ord (Note.content note) (Note.title note) area in
    let relevancia := _calculate_relevancia_cacd note area confidence in
    let conexoes := _suggest_connections notes note area subarea in
    {| Suggestion.note_id := Note.id note;
       Suggestion.area := area; Suggestion.subarea := subarea;
       Suggestion.topico := topico; Suggestion.tags := tags;
       Suggestion.relevancia_cacd := Some relevancia;
       Suggestion.conexoes := conexoes;
       Suggestion.confidence := confidence |}.

(** [if suggestion.area:] *)
Definition nonempty_label (o : option str) : bool :=
  match o with Some (_ :: _) => true | _ => false end.

(** One iteration of the first loop of [generate_feedback_file]: what
    a note adds to [suggestions_to_review]. *)
Definition review_entry (notes : Dict.t Note.t) (note : Note.t)
  : list Suggestion.t :=
  if negb (_has_complete_metadata note)
  then
    let suggestion := analyze_note notes note in
    if nonempty_label (Suggestion.area suggestion)
    then [suggestion] else []
  else [].

Definition suggestions_to_review (notes : Dict.t Note.t) : list Suggestion.t :=
  flat_map (fun kn => review_entry notes (snd kn)) notes.

End Analyzer.

(** ** Numbers in text *)

(** [str(z)] *)
Definition str_of_int (z : Z) : str := u (NilZero.string_of_int (Z.to_int z)).

(** [f"{q:.2f}"] for an exact rational: hundredths, ties to even. *)
Definition hundredths (q : Q) : Z :=
  let n := (Z.abs (Qnum q) * 100)%Z in
  let d := Zpos (Qden q) in
  let f := (n / d)%Z in
  let r := (n mod d)%Z in
  if (2 * r <? d)%Z then f
  else if (d <? 2 * r)%Z then (f + 1)%Z
  else if Z.even f then f else (f + 1)%Z.

Definition format_2f (q : Q) : str :=
  let h := hundredths q in
  (if (Qnum q <? 0)%Z && negb (h =? 0)%Z then u "-" else [])
  ++ str_of_int (h / 100) ++ u "."
  ++ str_of_int ((h mod 100) / 10) ++ str_of_int (h mod 10).

Definition digit_val (c : char) : option Z :=
  if (48 <=? c)%N && (c <=? 57)%N then Some (Z.of_N c - 48)%Z else None.

Fixpoint parse_digits (acc : Z) (s : str) : option Z :=
  match s with
  | [] => Some acc
  | c :: r =>
    match digit_val c with
    | Some d => parse_digits (acc * 10 + d)%Z r
    | None => None
    end
  end.

(** [int(s)] for an optionally signed run of ASCII digits between
    whitespace; [None] is [ValueError].  (Digit separators and non-ASCII
    digits, which CPython also accepts, are outside this model.) *)
Definition py_int (s : str) : option Z :=
  match strip s with
  | [] => None
  | c :: r =>
    if N.eqb c 45 then
      match r with [] => None | _ => option_map Z.opp (parse_digits 0 r) end
    else if N.eqb c 43 then
      match r with [] => None | _ => parse_digits 0 r end
    else parse_digits 0 (c :: r)
  end.

(** ** File system and paths *)

Record FS := {
  files : Dict.t str;      (* path -> content *)
  locked : list str        (* paths that cannot be opened for writing *)
}.

Definition fs_exists (fs : FS) (p : str) : bool := Dict.mem (files fs) p.

Definition fs_read (fs : FS) (p : str) : option str := Dict.get (files fs) p.

Definition fs_write (fs : FS) (p content : str) : option FS :=
  if existsb (str_eqb p) (locked fs) then None
  else Some {| files := Dict.set (files fs) p content; locked := locked fs |}.

Definition fs_rename (fs : FS) (src dst : str) : option FS :=
  match Dict.get (files fs) src with
  | Some c =>
    Some {| files := Dict.set (Dict.remove (files fs) src) dst c;
            locked := locked fs |}
  | None => None
  end.

(** The reversed name is cut at its first dot, the last dot of the name. *)
Fixpoint cut_at (c : char) (s : str) : str * option str :=
  match s with
  | [] => ([], None)
  | x :: r =>
    if N.eqb x c then ([], Some r)
    else let (a, b) := cut_at c r in (x :: a, b)
  end.

(** [Path(p).with_suffix(suffix)]: the suffix of the final component starts
    at its last dot, unless that dot is its first or last character. *)
Definition with_suffix (p suffix : str) : str :=
  let (name_rev, dir_rev) := cut_at 47%N (rev p) in
  let stem_rev :=
    match cut_at 46%N name_rev with
    | (_ :: _, Some ((_ :: _) as stem_rev)) => stem_rev
    | _ => name_rev
    end in
  let dir :=
    match dir_rev with
    | Some d => rev d ++ [47%N]
    | None => []
    end in
  dir ++ rev stem_rev ++ suffix.

Definition path_join (dir name : str) : str := dir ++ [47%N] ++ name.

(** ** The YAML library *)

Record Yaml := {
  safe_load : str -> option value;   (* [None] is [yaml.YAMLError] *)
  dump : Dict.t value -> str
}.

(** ** Review file protocol *)

Definition decision_unchecked : str := u "  - Decisão: [ ]".
Definition decision_checked : str := u "  - Decisão: [x]".

(** One suggested field: its line and the unchecked approval line. *)
Definition field_block (label text : str) : str :=
  u "- **" ++ label ++ u ":** " ++ text ++ [NL] ++ decision_unchecked ++ [NL].

Definition section_text (title : str) (s : Suggestion.t) : str :=
  u "## Nota: " ++ title ++ [NL]
  ++ u "**Arquivo:** `" ++ Suggestion.note_id s ++ u "`" ++ [NL]
  ++ u "**Confiança:** " ++ format_2f (Suggestion.confidence s) ++ [NL; NL]
  ++ match Suggestion.area s with
     | Some ((_ :: _) as a) => field_block (u "Área") a
     | _ => []
     end
  ++ match Suggestion.subarea s with
     | Some ((_ :: _) as a) => field_block (u "Subárea") a
     | _ => []
     end
  ++ match Suggestion.topico s with
     | Some ((_ :: _) as a) => field_block (u "Tópico") a
     | _ => []
     end
  ++ match Suggestion.tags s with
     | [] => []
     | ts => field_block (u "Tags") (join (u ", ") ts)
     end
  ++ match Suggestion.relevancia_cacd s with
     | Some r =>
       if (r =? 0)%Z then []
       else field_block (u "Relevância CACD") (str_of_int r ++ u "/5")
     | None => []
     end
  ++ match Suggestion.conexoes s with
     | [] => []
     | cs => field_block (u "Conexões") (join (u ", ") cs)
     end
  ++ [NL] ++ u "---" ++ [NL; NL].

(** The sections in order, and whether every suggestion named a stored
    note; the text stops at the first that does not ([KeyError]). *)
Fixpoint sections_text (notes : Dict.t Note.t) (ss : list Suggestion.t)
  : str * bool :=
  match ss with
  | [] => ([], true)
  | s :: ss' =>
    match Dict.get notes (Suggestion.note_id s) with
    | Some note =>
      let (rest, ok) := sections_text notes ss' in
      (section_text (Note.title note) s ++ rest, ok)
    | None => ([], false)
    end
  end.

Definition feedback_header (now : str) : str :=
  u "# CACD - Revisão de Metadados" ++ [NL; NL]
  ++ u "Gerado em: " ++ now ++ [NL; NL]
  ++ u "**Instruções:** Marque com [x] para aprovar, [ ] para rejeitar"
  ++ [NL; NL].

Section ReviewFile.
Variable U : Unicode.
Variable ord : SetOrder.
Variable Y : Yaml.
Variable config : Config.
Variable tax : taxonomy.
Variable vault_path : str.

Definition feedback_path : str := path_join vault_path (feedback_file config).

(** [generate_feedback_file]; [now] is the formatted current time. *)
Definition generate_feedback_file (now : str) (notes : Dict.t Note.t)
    (fs : FS) : bool * FS :=
  match suggestions_to_review U ord config tax notes with
  | [] => (false, fs)
  | ss =>
    let (body, ok) := sections_text notes ss in
    match fs_write fs feedback_path (feedback_header now ++ body) with
    | Some fs' => (ok, fs')
    | None => (false, fs)
    end
  end.

(** *** Parsing approvals *)

Definition upto_newline (s : str) : str := fst (cut_at NL s).

(** Group 1 of [\*\*(.+?):\*\* (.+)] once the opening stars are read:
    the shortest non-empty run before [":** "] that leaves a non-empty
    group 2. *)
Fixpoint lazy_label (g1_rev : str) (s : str) : option (str * str) :=
  match s with
  | [] => None
  | c :: r =>
    let g2 := upto_newline (skipn 4 s) in
    if match g1_rev with [] => false | _ => true end
       && startswith (u ":** ") s
       && match g2 with [] => false | _ => true end
    then Some (rev g1_rev, g2)
    else if N.eqb c NL then None
    else lazy_label (c :: g1_rev) r
  end.

(** [re.search(r'\*\*(.+?):\*\* (.+)', s)]: groups 1 and 2 of the
    leftmost match *)
Fixpoint field_search (s : str) : option (str * str) :=
  match (if startswith (u "**") s then lazy_label [] (skipn 2 s) else None) with
  | Some m => Some m
  | None =>
    match s with
    | [] => None
    | _ :: r => field_search r
    end
  end.

Definition field_mapping : Dict.t str :=
  [(u "área", u "area"); (u "subárea", u "subarea"); (u "tópico", u "topico");
   (u "tags", u "tags"); (u "relevância cacd", u "relevancia_cacd");
   (u "conexões", u "conexoes")].

(** [[x.strip() for x in v.split(',')]] as a header value *)
Definition comma_list (v : str) : value :=
  VList (map (fun x => VStr (strip x)) (split_char 44%N v)).

(** The converted value of an approved field; [None] is the
    [ValueError] of [int]. *)
Definition convert_field (mapped_field field_value : str) : option value :=
  if str_eqb mapped_field (u "tags") then Some (comma_list field_value)
  else if str_eqb mapped_field (u "relevancia_cacd") then
    option_map VInt (py_int (hd [] (split_char 47%N field_value)))
  else if str_eqb mapped_field (u "conexoes") then Some (comma_list field_value)
  else Some (VStr field_value).

(** [lines.index(line)] *)
Fixpoint index_of (line : str) (lines : list str) : nat :=
  match lines with
  | [] => 0
  | l :: ls => if str_eqb l line then 0 else S (index_of line ls)
  end.

(** [lines[lines.index(line) - 1]], with Python's wrap-around at -1 *)
Definition prev_line_of (line : str) (lines : list str) : str :=
  match index_of line lines with
  | O => last lines []
  | S i => nth i lines []
  end.

Definition approvals := Dict.t (Dict.t value).

(** [approved_changes[current_note][field] = v] on a [defaultdict(dict)] *)
Definition approve (acc : approvals) (note_title field : str) (v : value)
  : approvals :=
  let changes :=
    match Dict.get acc note_title with Some c => c | None => [] end in
  Dict.set acc note_title (Dict.set changes field v).

(** One iteration of the parsing loop. *)
Definition parse_line (lines : list str) (line : str)
    (st : option str * approvals) : option (option str * approvals) :=
  let '(current_note, acc) := st in
  if startswith (u "## Nota:") line
  then Some (Some (strip (replace (u "## Nota:") [] line)), acc)
  else if contains (u "- Decisão: [x]") line
  then
    let prev_line := prev_line_of line lines in
    match current_note with
    | Some ((_ :: _) as note_title) =>
      if contains (u "**") prev_line
      then
        match field_search prev_line with
        | Some (g1, field_value) =>
          let field_name := lower U g1 in
          match Dict.get field_mapping field_name with
          | Some mapped_field =>
            match convert_field mapped_field field_value with
            | Some v => Some (current_note, approve acc note_title mapped_field v)
            | None => None
            end
          | None => Some st
          end
        | None => Some st
        end
      else Some st
    | _ => Some st
    end
  else Some st.

Fixpoint parse_lines (lines rest : list str) (st : option str * approvals)
  : option approvals :=
  match rest with
  | [] => Some (snd st)
  | line :: rest' =>
    match parse_line lines line st with
    | Some st' => parse_lines lines rest' st'
    | None => None
    end
  end.

(** The approved changes read from a review file's content. *)
Definition parse_feedback (content : str) : option approvals :=
  let lines := split_char NL content in
  parse_lines lines lines (None, []).

End ReviewFile.

(** ** Applying approved changes *)

Section Apply.
Variable U : Unicode.
Variable Y : Yaml.
Variable config : Config.
Variable vault_path : str.

(** The header and body re-derived from a file's content; the header is
    whatever [yaml.safe_load(...) or {}] gives, a mapping or not. *)
Definition reparse (content : str) : value * str :=
  if startswith (u "---") content then
    match split_sep (u "---") (Some 2) content with
    | _ :: header :: body :: _ =>
      (match safe_load Y header with
       | Some v => if truthy v then v else VDict []
       | None => VDict []
       end, body)
    | _ => (VDict [], content)
    end
  else (VDict [], content).

Definition rebuild (frontmatter : Dict.t value) (main_content : str) : str :=
  u "---" ++ [NL] ++ dump Y frontmatter ++ u "---" ++ [NL] ++ main_content.

(** [_apply_metadata_changes]: the result, the file system as the call
    leaves it, and the note with its in-memory header. *)
Definition _apply_metadata_changes (fs : FS) (note : Note.t)
    (changes : Dict.t value) : bool * FS * Note.t :=
  let file_path := Note.file_path note in
  let backed_up : option (FS * str) :=
    if backup_original config then
      let backup_path := with_suffix file_path (u ".bak") in
      if negb (fs_exists fs backup_path) then
        match fs_rename fs file_path backup_path with
        | Some fs' => Some (fs', with_suffix backup_path (u ".md"))
        | None => None
        end
      else Some (fs, file_path)
    else Some (fs, file_path) in
  match backed_up with
  | None => (false, fs, note)
  | Some (fs1, file_path) =>
    match fs_read fs1 file_path with
    | None => (false, fs1, note)
    | Some content =>
      match reparse content with
      | (VDict frontmatter, main_content) =>
        let frontmatter := Dict.update frontmatter changes in
        let new_content := rebuild frontmatter main_content in
        match fs_write fs1 file_path new_content with
        | Some fs2 =>
          (true, fs2,
           Note.with_frontmatter note
             (Dict.update (Note.frontmatter note) changes))
        | None => (false, fs1, note)
        end
      | _ => (false, fs1, note)
      end
    end
  end.

(** [_find_note_by_title], with the store key of the note found *)
Fixpoint _find_note_by_title (notes : Dict.t Note.t) (title : str)
  : option (str * Note.t) :=
  match notes with
  | [] => None
  | (k, note) :: rest =>
    if str_eqb (Note.title note) title then Some (k, note)
    else _find_note_by_title rest title
  end.

(** The loop that applies the approved changes, note by note. *)
Fixpoint apply_all (approved : approvals) (fs : FS) (notes : Dict.t Note.t)
    (changes_applied : nat) : FS * Dict.t Note.t * nat :=
  match approved with
  | [] => (fs, notes, changes_applied)
  | (note_title, changes) :: rest =>
    match _find_note_by_title notes note_title with
    | Some (k, note) =>
      let '(ok, fs', note') := _apply_metadata_changes fs note changes in
      apply_all rest fs' (Dict.set notes k note')
        (if ok then S changes_applied else changes_applied)
    | None => apply_all rest fs notes changes_applied
    end
  end.

(** [process_feedback_file] *)
Definition process_feedback_file (fs : FS) (notes : Dict.t Note.t)
  : bool * FS * Dict.t Note.t :=
  let feedback_path := feedback_path config vault_path in
  match fs_read fs feedback_path with
  | None => (false, fs, notes)
  | Some content =>
    match parse_feedback U content with
    | None => (false, fs, notes)
    | Some approved =>
      let '(fs', notes', _) := apply_all approved fs notes 0 in
      match fs_rename fs' feedback_path
              (with_suffix feedback_path (u ".processed.md")) with
      | Some fs'' => (true, fs'', notes')
      | None => (false, fs', notes')
      end
    end
  end.

End Apply.

(** The operator marks every approval box: each unchecked decision line
    becomes a checked one. *)
Definition mark_all (content : str) : str :=
  join [NL]
    (map (fun line =>
            if str_eqb line decision_unchecked then decision_checked else line)
         (split_char NL content)).

(** ** Example vaults *)

Module Vault.

Definition geo_tax : taxonomy := [(u "Geografia", Subareas [])].

Definition geo_note : Note.t := {|
  Note.id := u "geografia.md";
  Note.title := u "geografia";
  Note.content := u "geografia";
  Note.frontmatter := [];
  Note.file_path := u "/vault/geografia.md"
|}.

Definition geo_notes : Dict.t Note.t := [(u "geografia.md", geo_note)].

Definition geo_fs : FS :=
  {| files := [(u "/vault/geografia.md", u "geografia")]; locked := [] |}.

Definition no_backup : Config := {|
  min_content_length := 50; max_tags := 5; relevancia_threshold := 3 # 10;
  conexoes_max := 3; feedback_file := u "cacd_feedback.md";
  cache_file := u ".cacd_cache.json"; backup_original := false |}.

Definition two_tags : Config := {|
  min_content_length := 50; max_tags := 2; relevancia_threshold := 3 # 10;
  conexoes_max := 3; feedback_file := u "cacd_feedback.md";
  cache_file := u ".cacd_cache.json"; backup_original := true |}.

Definition no_connections : Config := {|
  min_content_length := 50; max_tags := 5; relevancia_threshold := 3 # 10;
  conexoes_max := 0; feedback_file := u "cacd_feedback.md";
  cache_file := u ".cacd_cache.json"; backup_original := true |}.

Definition war_note : Note.t := {|
  Note.id := u "guerra.md";
  Note.title := u "guerra";
  Note.content := u "Guerra e paz na ONU";
  Note.frontmatter := [];
  Note.file_path := u "/vault/guerra.md"
|}.

Definition paraguai_note : Note.t := {|
  Note.id := u "guerra-do-paraguai.md";
  Note.title := u "Guerra do Paraguai";
  Note.content := u "A Guerra do Paraguai (1864-1870) foi o maior conflito.";
  Note.frontmatter :=
    [(u "title", VStr (u "Guerra do Paraguai"));
     (u "area", VStr (u "História do Brasil"));
     (u "relevancia_cacd", VInt 5)];
  Note.file_path := u "/vault/guerra-do-paraguai.md"
|}.

Definition urban_note : Note.t := {|
  Note.id := u "urbanizacao-brasil.md";
  Note.title := u "urbanizacao-brasil";
  Note.content := u "A urbanização no Brasil acelerou-se após 1950.";
  Note.frontmatter := [];
  Note.file_path := u "/vault/urbanizacao-brasil.md"
|}.

Definition mixed_notes : Dict.t Note.t :=
  [(u "guerra.md", war_note);
   (u "guerra-do-paraguai.md", paraguai_note);
   (u "urbanizacao-brasil.md", urban_note)].

(** The review file of [geo_notes] as generated, and with all boxes marked. *)
Definition now : str := u "2024-01-01 10:00".

Definition geo_review : bool * FS :=
  generate_feedback_file Latin1.db insertion_order no_backup geo_tax
    (u "/vault") now geo_notes geo_fs.

Definition marked (fs : FS) (path : str) : FS :=
  match fs_read fs path with
  | Some c => {| files := Dict.set (files fs) path (mark_all c);
                 locked := locked fs |}
  | None => fs
  end.

Definition geo_marked : FS := marked (snd geo_review) (u "/vault/cacd_feedback.md").

End Vault.

(** ** Further example data *)

Module Scenario.

Definition paraguai_tax : taxonomy :=
  [(u "História do Brasil",
    Subareas [(u "Guerra do Paraguai", TopicList [TopicStr (u "causas")])])].

Definition paraguai_body : str :=
  u "Paraguai, Paraguai; Paraguai - Paraguai e Paraguai.".

(** A YAML library that rejects every document; it stands in where the
    header text plays no role. *)
Definition rejecting_yaml : Yaml :=
  {| safe_load := fun _ => None; dump := fun _ => [] |}.

(** A vault after a first run: the backup exists and the note was restored. *)
Definition restored_fs : FS :=
  {| files := [(u "/vault/geografia.md", u "geografia");
               (u "/vault/geografia.bak", u "geografia")];
     locked := [] |}.

(** A vault whose note file was deleted after the scan. *)
Definition empty_fs : FS := {| files := []; locked := [] |}.

End Scenario.

(** ** Loading the taxonomy and the notes *)

(** How the [isinstance] tests of [_build_keyword_map] read a loaded YAML
    value: only a mapping has subareas, only a list has topics, only a
    string is a topic.  A taxonomy that is not a mapping has no [items]
    ([None]: the constructor raises). *)
Definition topic_of (v : value) : topic_item :=
  match v with VStr s => TopicStr s | _ => TopicOther end.

Definition topics_of (v : value) : topics :=
  match v with VList l => TopicList (map topic_of l) | _ => TopicsOther end.

Definition content_of (v : value) : area_content :=
  match v with
  | VDict d => Subareas (map (fun kv => (fst kv, topics_of (snd kv))) d)
  | _ => ContentOther
  end.

Definition taxonomy_of (v : value) : option taxonomy :=
  match v with
  | VDict d => Some (map (fun kv => (fst kv, content_of (snd kv))) d)
  | _ => None
  end.

(** [Path(p).name] and [Path(p).stem] *)
Definition path_name (p : str) : str := rev (fst (cut_at 47%N (rev p))).

Definition path_stem (p : str) : str :=
  let name_rev := fst (cut_at 47%N (rev p)) in
  match cut_at 46%N name_rev with
  | (_ :: _, Some ((_ :: _) as stem_rev)) => rev stem_rev
  | _ => rev name_rev
  end.

(** [str(p.relative_to(root))] on normalized paths; [None] is [ValueError]. *)
Definition relative_to (root p : str) : option str :=
  if startswith (root ++ [47%N]) p
  then Some (skipn (List.length root + 1) p)
  else None.

(** What [_load_note] gives: a note; a note whose [title] header is not a
    string, which [Note.t] cannot hold; or [None] after a logged error. *)
Inductive load_result :=
| Loaded (note : Note.t)
| NonTextTitle (title : value)
| NotLoaded.

Section Loading.
Variable U : Unicode.
Variable Y : Yaml.
Variable vault_path : str.

(** [_load_taxonomy] *)
Definition _load_taxonomy (fs : FS) (taxonomy_path : str) : value :=
  match fs_read fs taxonomy_path with
  | Some text =>
    match safe_load Y text with
    | Some v => v
    | None => VDict []
    end
  | None => VDict []
  end.

(** [CACDTaxonomyAnalyzer.__init__]: the taxonomy and its keyword map. *)
Definition taxonomy_analyzer (fs : FS) (taxonomy_path : str)
  : option (taxonomy * Dict.t (list label)) :=
  match taxonomy_of (_load_taxonomy fs taxonomy_path) with
  | Some tax => Some (tax, _build_keyword_map U tax)
  | None => None
  end.

(** [_load_note], without the modification time. *)
Definition _load_note (fs : FS) (file_path : str) : load_result :=
  match fs_read fs file_path with
  | None => NotLoaded
  | Some content =>
    let '(frontmatter, clean_content) :=
      if startswith (u "---") content then
        match split_sep (u "---") (Some 2) content with
        | _ :: header :: body :: _ =>
          match safe_load Y header with
          | Some v => (if truthy v then v else VDict [], strip body)
          | None => (VDict [], content)
          end
        | _ => (VDict [], content)
        end
      else (VDict [], content) in
    match relative_to vault_path file_path, frontmatter with
    | Some note_id, VDict fm =>
      match Dict.get fm (u "title") with
      | Some (VStr title) =>
        Loaded {| Note.id := note_id; Note.title := title;
                  Note.content := clean_content; Note.frontmatter := fm;
                  Note.file_path := file_path |}
      | Some v => NonTextTitle v
      | None =>
        Loaded {| Note.id := note_id; Note.title := path_stem file_path;
                  Note.content := clean_content; Note.frontmatter := fm;
                  Note.file_path := file_path |}
      end
    | _, _ => NotLoaded
    end
  end.

(** The file filter of [scan_vault]. *)
Definition skipped (file_path : str) : bool :=
  let name := path_name file_path in
  startswith (u ".") name || contains (u "template") (lower U name).

(** The loop of [scan_vault] over [markdown_files], the paths that
    [rglob("*.md")] found; [None] when a note outside [Note.t] is met. *)
Fixpoint scan_files (fs : FS) (markdown_files : list str)
    (notes : Dict.t Note.t) : option (Dict.t Note.t) :=
  match markdown_files with
  | [] => Some notes
  | file_path :: rest =>
    if skipped file_path then scan_files fs rest notes
    else
      match _load_note fs file_path with
      | Loaded note => scan_files fs rest (Dict.set notes (Note.id note) note)
      | NotLoaded => scan_files fs rest notes
      | NonTextTitle _ => None
      end
  end.

(** [scan_vault]: the store and the count it returns. *)
Definition scan_vault (fs : FS) (markdown_files : list str)
    (notes : Dict.t Note.t) : option (Dict.t Note.t * nat) :=
  match scan_files fs markdown_files notes with
  | Some notes' => Some (notes', List.length notes')
  | None => None
  end.

End Loading.

(** * Part II: its properties *)

(** ** Equality tests *)

Lemma str_eqb_eq (a b : str) : str_eqb a b = true <-> a = b.
Proof.
  revert b; induction a as [|x a IH]; intros [|y b]; simpl;
    try (split; congruence).
  rewrite andb_true_iff, N.eqb_eq, IH. split; [intros []|intros [=]]; subst; auto.
Qed.

(** ** Facts about whitespace splitting and joining *)

Section NormalizeFacts.

Lemma words_nospace_app (w s : str) :
(forall c, In c w -> is_space c = false) ->
words (w ++ s) = (w ++ fst (words s), snd (words s)).
Proof.
induction w as [|c w IH]; intros Hw; simpl.
- destruct (words s); reflexivity.
- rewrite IH by (intros; apply Hw; now right).
  rewrite (Hw c) by now left. reflexivity.
Qed.

Definition clean_word (w : str) : Prop :=
w <> [] /\ forall c, In c w -> is_space c = false.

Lemma split_ws_join (ws : list str) :
Forall clean_word ws -> split_ws (join [SP] ws) = ws.
Proof.
induction ws as [|w ws IH]; intros Hc; [reflexivity|].
inversion Hc as [|? ? [Hne Hns] Hrest]; subst.
destruct ws as [|w' ws'].
- simpl. unfold split_ws.
  rewrite <- (app_nil_r w) at 1. rewrite words_nospace_app by assumption.
  simpl. rewrite app_nil_r. destruct w; [contradiction|reflexivity].
- specialize (IH Hrest).
  change (join [SP] (w :: w' :: ws'))
    with (w ++ SP :: join [SP] (w' :: ws')).
  unfold split_ws in *. rewrite words_nospace_app by assumption.
  change (words (SP :: join [SP] (w' :: ws')))
    with (let (w0, ws0) := words (join [SP] (w' :: ws')) in
          ([] : str, match w0 with [] => ws0 | _ => w0 :: ws0 end)).
  destruct (words (join [SP] (w' :: ws'))) as [w0 ws0].
  simpl. rewrite app_nil_r. rewrite IH.
  destruct w; [contradiction|reflexivity].
Qed.

Lemma words_clean (s : str) :
(forall c, In c (fst (words s)) -> is_space c = false /\ In c s) /\
Forall (fun w => clean_word w /\ forall c, In c w -> In c s)
       (snd (words s)).
Proof.
induction s as [|c s [IHw IHws]]; simpl.
- split; [intros ? []|constructor].
- destruct (words s) as [w ws]; simpl in *.
  assert (Hws : Forall
    (fun w0 => clean_word w0 /\ forall c0, In c0 w0 -> c = c0 \/ In c0 s) ws).
  { eapply Forall_impl; [|exact IHws]. intros a [Ha Hin]; split; auto. }
  destruct (is_space c) eqn:Hc; simpl.
  + split; [intros ? []|].
    destruct w as [|x w]; [exact Hws|].
    constructor; [|exact Hws].
    split; [split; [discriminate|]|]; intros c0 Hc0;
      destruct (IHw c0 Hc0); auto.
  + split; [|exact Hws].
    intros c0 [<-|Hc0]; [auto|]. destruct (IHw c0 Hc0); auto.
Qed.

Lemma split_ws_clean (s : str) :
Forall (fun w => clean_word w /\ forall c, In c w -> In c s) (split_ws s).
Proof.
unfold split_ws. destruct (words_clean s) as [Hw Hws].
destruct (words s) as [w ws]; simpl in *.
destruct w as [|x w]; [exact Hws|].
constructor; [|exact Hws].
split; [split; [discriminate|]|]; intros c Hc; destruct (Hw c Hc); auto.
Qed.

Lemma in_join (sep : str) (ws : list str) (c : char) :
In c (join sep ws) -> In c sep \/ exists w, In w ws /\ In c w.
Proof.
induction ws as [|w ws IH]; simpl; [intros []|].
destruct ws as [|w' ws'].
- intros H; right; exists w; auto.
- rewrite !in_app_iff. intros [H|[H|H]].
  + right; exists w; auto.
  + now left.
  + destruct (IH H) as [?|[w0 [? ?]]]; [now left|].
    right; exists w0; auto.
Qed.

End NormalizeFacts.

(** ** Normalization is idempotent

    What the proof needs from the Unicode database: the word characters that
    survive decomposition, mark stripping and lowercasing are themselves
    decomposed, lowercase and not marks, also when they stand next to each
    other or to spaces. *)

Definition folded (U : Unicode) (s : str) : str :=
  lower U (strip_marks U (nfd U s)).

Definition drawn_from (U : Unicode) (s w : str) : Prop :=
  forall c, In c w -> c = SP \/ (In c (folded U s) /\ is_word U c = true).

Definition fold_stable (U : Unicode) : Prop :=
  forall s w, drawn_from U s w ->
    nfd U w = w /\ lower U w = w /\ forall c, In c w -> is_mark U c = false.

Section Idempotence.
Variable U : Unicode.
Hypothesis HU : fold_stable U.

Lemma sub_nonword_in (s : str) (c : char) :
  In c (sub_nonword U s) -> is_space c = false ->
  In c s /\ is_word U c = true.
Proof.
  unfold sub_nonword. rewrite in_map_iff. intros [d [Hd Hin]] Hsp.
  destruct (is_word U d) eqn:Hw; simpl in Hd.
  - subst; auto.
  - destruct (is_space d) eqn:Hs; subst; [congruence|discriminate].
Qed.

Lemma sub_nonword_fixed (s : str) :
  (forall c, In c s -> c = SP \/ is_word U c = true) ->
  sub_nonword U s = s.
Proof.
  intros H. unfold sub_nonword. rewrite <- (map_id s) at 2.
  apply map_ext_in. intros c Hc.
  destruct (H c Hc) as [-> | ->]; [|reflexivity].
  change (is_space SP) with true. now rewrite orb_true_r.
Qed.

Lemma filter_fixed {A} (f : A -> bool) (l : list A) :
  (forall x, In x l -> f x = true) -> filter f l = l.
Proof.
  induction l as [|x l IH]; intros H; simpl; [reflexivity|].
  rewrite (H x) by now left. f_equal. apply IH. intros; apply H; now right.
Qed.

Lemma normalize_drawn (x : str) :
  Forall clean_word (split_ws (sub_nonword U (folded U x))) /\
  drawn_from U x (join [SP] (split_ws (sub_nonword U (folded U x)))).
Proof.
  pose proof (split_ws_clean (sub_nonword U (folded U x))) as Hc.
  split.
  - eapply Forall_impl; [|exact Hc]. now intros w [? _].
  - intros c Hin. apply in_join in Hin as [[<-|[]]|[w [Hw Hcw]]]; [now left|].
    right. rewrite Forall_forall in Hc. destruct (Hc w Hw) as [[_ Hns] Hsub].
    apply sub_nonword_in; auto.
Qed.

Lemma normalize_text_idempotent (x : str) :
  _normalize_text U (_normalize_text U x) = _normalize_text U x.
Proof.
  destruct x as [|a x]; [reflexivity|].
  change (_normalize_text U (a :: x))
    with (join [SP] (split_ws (sub_nonword U (folded U (a :: x))))).
  destruct (normalize_drawn (a :: x)) as [Hclean Hdrawn].
  set (ws := split_ws (sub_nonword U (folded U (a :: x)))) in *.
  destruct (HU _ _ Hdrawn) as [Hnfd [Hlow Hmark]].
  assert (Hbody : join [SP] (split_ws (sub_nonword U (folded U (join [SP] ws))))
                  = join [SP] ws).
  { unfold folded. rewrite Hnfd.
    unfold strip_marks. rewrite filter_fixed
      by (intros c Hc; rewrite (Hmark c Hc); reflexivity).
    rewrite Hlow. rewrite sub_nonword_fixed.
    - rewrite split_ws_join by exact Hclean. reflexivity.
    - intros c Hc. destruct (Hdrawn c Hc) as [?|[_ ?]]; auto. }
  destruct (join [SP] ws) as [|b y] eqn:Hy; [reflexivity|exact Hbody].
Qed.
End Idempotence.

(** The Latin-1 database satisfies the law. *)
Module Latin1Facts.
Import Latin1.

Definition undecomposed (c : char) : bool :=
  match assoc decomposition c with
  | Some d => str_eqb d [c]
  | None => true
  end.

Definition inert (c : char) : bool :=
  undecomposed c && N.eqb (lower_char c) c && negb (in_range 768 879 c).

Definition below (n : nat) : list N := map N.of_nat (seq 0 n).

Lemma forall_below (f : N -> bool) (n : nat) :
  forallb f (below n) = true ->
  forall c, (c < N.of_nat n)%N -> f c = true.
Proof.
  intros H c Hc. rewrite forallb_forall in H. apply H.
  unfold below. apply in_map_iff. exists (N.to_nat c).
  split; [apply N2Nat.id|]. apply in_seq. lia.
Qed.

Lemma undecomposed_spec (c : char) :
  undecomposed c = true -> decompose c = [c].
Proof.
  unfold undecomposed, decompose. destruct (assoc decomposition c); [|reflexivity].
  apply str_eqb_eq.
Qed.

Lemma assoc_high (c : char) : (1024 <= c)%N -> assoc decomposition c = None.
Proof.
  intros Hc. unfold decomposition.
  repeat (cbn [assoc];
          match goal with
          | |- context [N.eqb ?k c] =>
            replace (N.eqb k c) with false by (symmetry; apply N.eqb_neq; lia)
          end).
  reflexivity.
Qed.

Lemma word_char_low (c : char) : word_char c = true -> (c < 256)%N.
Proof.
  unfold word_char, in_range. cbn [existsb].
  rewrite !orb_true_iff, !andb_true_iff, !N.leb_le, !N.eqb_eq. lia.
Qed.

Lemma lower_char_high (c : char) : (256 <= c)%N -> lower_char c = c.
Proof.
  intros Hc. unfold lower_char, in_range.
  replace (c <=? 90)%N with false by (symmetry; apply N.leb_gt; lia).
  replace (c <=? 222)%N with false by (symmetry; apply N.leb_gt; lia).
  rewrite !andb_false_r. reflexivity.
Qed.

(** Decomposition yields undecomposable characters. *)
Lemma decompose_undecomposed (e d : char) :
  In d (decompose e) -> undecomposed d = true.
Proof.
  destruct (N.ltb_spec e 1024) as [Hlt|Hge].
  - assert (H : forallb (fun c => forallb undecomposed (decompose c))
                  (below 1024) = true) by (vm_compute; reflexivity).
    pose proof (forall_below _ _ H e Hlt) as He. cbv beta in He.
    rewrite forallb_forall in He. exact (He d).
  - unfold decompose. rewrite assoc_high by exact Hge.
    intros [<-|[]]. unfold undecomposed. now rewrite assoc_high.
Qed.

Lemma lower_inert (d : char) :
  undecomposed d = true -> in_range 768 879 d = false ->
  word_char (lower_char d) = true -> inert (lower_char d) = true.
Proof.
  intros Hu Hm Hw.
  destruct (N.ltb_spec d 1024) as [Hlt|Hge].
  - assert (H : forallb
        (fun d => implb (undecomposed d && negb (in_range 768 879 d)
                         && word_char (lower_char d))
                        (inert (lower_char d)))
        (below 1024) = true) by (vm_compute; reflexivity).
    pose proof (forall_below _ _ H d Hlt) as Hd. cbv beta in Hd.
    rewrite Hu, Hm, Hw in Hd. exact Hd.
  - rewrite lower_char_high in Hw by lia. apply word_char_low in Hw. lia.
Qed.

Lemma inert_spec (c : char) :
  inert c = true ->
  decompose c = [c] /\ lower_char c = c /\ in_range 768 879 c = false.
Proof.
  unfold inert. rewrite !andb_true_iff, negb_true_iff, N.eqb_eq.
  intros [[Hu Hl] Hm]. auto using undecomposed_spec.
Qed.

Lemma db_fold_stable : fold_stable db.
Proof.
  intros s w Hw.
  assert (Hin : forall c, In c w -> inert c = true).
  { intros c Hc. destruct (Hw c Hc) as [->|[Hf Hword]]; [reflexivity|].
    unfold folded, strip_marks in Hf. cbn [lower nfd is_mark db] in Hf.
    apply in_map_iff in Hf as [d [<- Hd]].
    apply filter_In in Hd as [Hd Hm]. apply negb_true_iff in Hm.
    apply in_flat_map in Hd as [e [_ He]].
    apply lower_inert; eauto using decompose_undecomposed. }
  cbn [lower nfd is_mark db].
  clear Hw. induction w as [|c w IH]; [repeat split; intros ? []|].
  destruct (inert_spec c (Hin c (or_introl eq_refl))) as [Hd [Hl Hm]].
  destruct IH as [IH1 [IH2 IH3]]; [intros; apply Hin; now right|].
  cbn [flat_map map]. rewrite Hd, Hl, IH1, IH2.
  repeat split. intros c0 [<-|Hc0]; auto.
Qed.

End Latin1Facts.



(** ** The classifier's confidence *)

Lemma str_eqb_refl (a : str) : str_eqb a a = true.
Proof. now apply str_eqb_eq. Qed.

Lemma ostr_eqb_eq (a b : option str) : ostr_eqb a b = true <-> a = b.
Proof.
  destruct a, b; simpl; try (split; congruence).
  rewrite str_eqb_eq. split; congruence.
Qed.

Lemma label_eqb_eq (a b : label) : label_eqb a b = true <-> a = b.
Proof.
  destruct a as [[a1 a2] a3], b as [[b1 b2] b3]; simpl.
  rewrite !andb_true_iff, str_eqb_eq, !ostr_eqb_eq.
  split; [intros [[] ]|intros [=]]; subst; auto.
Qed.

Lemma label_eqb_refl (a : label) : label_eqb a a = true.
Proof. now apply label_eqb_eq. Qed.

Lemma dict_get_set {V} (d : Dict.t V) (k k' : str) (v : V) :
  Dict.get (Dict.set d k v) k' =
  if str_eqb k k' then Some v else Dict.get d k'.
Proof.
  induction d as [|[k0 v0] d IH]; simpl.
  - reflexivity.
  - destruct (str_eqb k0 k) eqn:E; simpl.
    + apply str_eqb_eq in E; subst. now destruct (str_eqb k k').
    + rewrite IH. destruct (str_eqb k0 k') eqn:E'; [|reflexivity].
      destruct (str_eqb k k') eqn:E2; [|reflexivity].
      apply str_eqb_eq in E', E2; subst. now rewrite str_eqb_refl in E.
Qed.

(** Declarative reading of the classifier's counters: the label occurrences
    met while scanning the words, the number of occurrences of one label,
    and the highest such number. *)
Definition label_hits (km : Dict.t (list label)) (ws : list str) : list label :=
  flat_map (fun w => match Dict.get km w with Some ls => ls | None => [] end) ws.

Definition match_count (hits : list label) (l : label) : nat :=
  List.length (filter (label_eqb l) hits).

Definition best_score (hits : list label) : nat :=
  fold_right Nat.max 0 (map (match_count hits) hits).

Definition counter (m : list (label * nat)) (l : label) : nat :=
  match find (fun e => label_eqb (fst e) l) m with
  | Some e => snd e
  | None => 0
  end.

Section Counters.

Lemma counter_bump (m : list (label * nat)) (l l' : label) :
  counter (bump m l) l' =
  if label_eqb l l' then S (counter m l') else counter m l'.
Proof.
  unfold counter. induction m as [|[k n] m IH]; simpl.
  - now destruct (label_eqb l l').
  - destruct (label_eqb k l) eqn:E; simpl.
    + apply label_eqb_eq in E; subst. now destruct (label_eqb l l').
    + destruct (label_eqb k l') eqn:E'; [|exact IH].
      destruct (label_eqb l l') eqn:E''; [|reflexivity].
      apply label_eqb_eq in E', E''; subst.
      now rewrite label_eqb_refl in E.
Qed.

Lemma bump_keys (m : list (label * nat)) (l : label) :
  map fst (bump m l) =
  if existsb (label_eqb l) (map fst m) then map fst m else map fst m ++ [l].
Proof.
  induction m as [|[k n] m IH]; simpl; [reflexivity|].
  destruct (label_eqb k l) eqn:E.
  - apply label_eqb_eq in E; subst. now rewrite label_eqb_refl.
  - simpl. rewrite IH. destruct (label_eqb l k) eqn:E'.
    + apply label_eqb_eq in E'; subst. now rewrite label_eqb_refl in E.
    + simpl. now destruct (existsb (label_eqb l) (map fst m)).
Qed.

Lemma bump_nodup (m : list (label * nat)) (l : label) :
  NoDup (map fst m) -> NoDup (map fst (bump m l)).
Proof.
  intros H. rewrite bump_keys.
  destruct (existsb (label_eqb l) (map fst m)) eqn:E; [exact H|].
  apply NoDup_app; [exact H|repeat constructor; intros []|].
  intros k Hk [Hkl|[]]. subst k.
  assert (existsb (label_eqb l) (map fst m) = true); [|congruence].
  apply existsb_exists. exists l. auto using label_eqb_refl.
Qed.

Lemma counter_entry (m : list (label * nat)) (l : label) (n : nat) :
  NoDup (map fst m) -> In (l, n) m -> counter m l = n.
Proof.
  unfold counter. induction m as [|[k j] m IH]; simpl; [intros _ []|].
  intros Hnd [[= -> ->]|Hin].
  - now rewrite label_eqb_refl.
  - inversion Hnd as [|? ? Hk Hnd']; subst.
    destruct (label_eqb k l) eqn:E; [|auto].
    apply label_eqb_eq in E; subst.
    exfalso; apply Hk. apply in_map_iff. now exists (l, n).
Qed.

Lemma counter_positive (m : list (label * nat)) (l : label) :
  counter m l <> 0 -> In (l, counter m l) m.
Proof.
  unfold counter. induction m as [|[k j] m IH]; simpl; [congruence|].
  destruct (label_eqb k l) eqn:E; simpl.
  - apply label_eqb_eq in E; subst. now left.
  - intros H; right; auto.
Qed.

(** The counters after scanning [hits], starting from [m]. *)
Lemma counters_fold (hits : list label) (m : list (label * nat)) :
  NoDup (map fst m) ->
  NoDup (map fst (fold_left bump hits m)) /\
  forall l, counter (fold_left bump hits m) l = counter m l + match_count hits l.
Proof.
  revert m. induction hits as [|h hits IH]; intros m Hnd; simpl.
  - split; [exact Hnd|]. intros; unfold match_count; simpl; lia.
  - destruct (IH (bump m h) (bump_nodup _ _ Hnd)) as [H1 H2].
    split; [exact H1|]. intros l. rewrite H2, counter_bump.
    unfold match_count; simpl.
    destruct (label_eqb h l) eqn:E.
    + apply label_eqb_eq in E; subst. rewrite label_eqb_refl. simpl. lia.
    + destruct (label_eqb l h) eqn:E'; [|lia].
      apply label_eqb_eq in E'; subst. now rewrite label_eqb_refl in E.
Qed.

Lemma count_matches_fold (km : Dict.t (list label)) (ws : list str)
    (m : list (label * nat)) :
  fold_left
    (fun m word =>
       match Dict.get km word with
       | Some ls => fold_left bump ls m
       | None => m
       end) ws m
  = fold_left bump (label_hits km ws) m.
Proof.
  revert m. induction ws as [|w ws IH]; intros m; simpl; [reflexivity|].
  rewrite fold_left_app, IH. now destruct (Dict.get km w).
Qed.

Lemma best_of_max (cur : label * nat) (rest : list (label * nat)) :
  In (best_of cur rest) (cur :: rest) /\
  forall e, In e (cur :: rest) -> snd e <= snd (best_of cur rest).
Proof.
  revert cur. induction rest as [|x r IH]; intros cur; simpl.
  - split; [now left|]. intros e [<-|[]]; lia.
  - destruct (Nat.ltb_spec (snd cur) (snd x)) as [Hlt|Hge].
    + destruct (IH x) as [Hin Hmax]. split.
      * destruct Hin as [<-|Hin]; simpl; auto.
      * intros e [<-|He]; [|now apply Hmax].
        specialize (Hmax x (or_introl eq_refl)). lia.
    + destruct (IH cur) as [Hin Hmax]. split.
      * destruct Hin as [<-|Hin]; simpl; auto.
      * intros e [<-|[<-|He]].
        -- apply Hmax; now left.
        -- specialize (Hmax cur (or_introl eq_refl)). lia.
        -- apply Hmax; now right.
Qed.

Lemma match_count_in (hits : list label) (l : label) :
  match_count hits l <> 0 -> In l hits.
Proof.
  unfold match_count. induction hits as [|h hits IH]; simpl; [congruence|].
  destruct (label_eqb l h) eqn:E.
  - apply label_eqb_eq in E; subst. now left.
  - intros H; right; auto.
Qed.

Lemma best_score_bound (hits : list label) (l : label) (sub : list label) :
  In l sub -> match_count hits l <= fold_right Nat.max 0 (map (match_count hits) sub).
Proof.
  induction sub as [|h sub IH]; simpl; [intros []|].
  intros [->|H]; [lia|]. specialize (IH H). lia.
Qed.

Lemma best_score_unique (hits : list label) (n : nat) :
  (forall l, In l hits -> match_count hits l <= n) ->
  (exists l, In l hits /\ match_count hits l = n) ->
  best_score hits = n.
Proof.
  intros Hle [l [Hin Hl]]. unfold best_score.
  apply Nat.le_antisymm.
  - clear l Hin Hl.
    assert (H : forall sub, (forall l, In l sub -> In l hits) ->
              fold_right Nat.max 0 (map (match_count hits) sub) <= n).
    { induction sub as [|h sub IH]; simpl; intros Hs; [lia|].
      apply Nat.max_lub; [apply Hle, Hs; now left|].
      apply IH. intros; apply Hs; now right. }
    apply H; auto.
  - rewrite <- Hl. now apply best_score_bound.
Qed.

End Counters.

Section KeywordMap.
Variable U : Unicode.

(** Every word of the index points to at least one label. *)
Definition km_nonempty (km : Dict.t (list label)) : Prop :=
  forall w ls, Dict.get km w = Some ls -> ls <> [].

Lemma fold_left_preserves {A B} (P : A -> Prop) (f : A -> B -> A)
    (l : list B) (a : A) :
  (forall a x, P a -> P (f a x)) -> P a -> P (fold_left f l a).
Proof.
  intros Hf. revert a. induction l as [|x l IH]; simpl; auto.
Qed.

Lemma kw_append_nonempty km w l :
  km_nonempty km -> km_nonempty (kw_append km w l).
Proof.
  intros H w' ls. unfold kw_append. rewrite dict_get_set.
  destruct (str_eqb w w'); [|apply H].
  intros [= <-]. destruct (Dict.get km w) as [l0|]; [|discriminate].
  now destruct l0.
Qed.

Lemma add_words_nonempty km name l :
  km_nonempty km -> km_nonempty (add_words U km name l).
Proof.
  unfold add_words. apply fold_left_preserves. intros a x Ha.
  destruct (2 <? List.length x); auto using kw_append_nonempty.
Qed.

Lemma add_topics_nonempty km area subarea ts :
  km_nonempty km -> km_nonempty (add_topics U km area subarea ts).
Proof.
  destruct ts as [l|]; simpl; [|auto].
  apply fold_left_preserves. intros a [s|] Ha; auto using add_words_nonempty.
Qed.

Lemma add_subareas_nonempty km area content :
  km_nonempty km -> km_nonempty (add_subareas U km area content).
Proof.
  destruct content as [d|]; simpl; [|auto].
  apply fold_left_preserves. intros a x Ha.
  auto using add_topics_nonempty, add_words_nonempty.
Qed.

Lemma build_keyword_map_nonempty (tax : taxonomy) :
  km_nonempty (_build_keyword_map U tax).
Proof.
  unfold _build_keyword_map. apply fold_left_preserves.
  - intros a x Ha. auto using add_subareas_nonempty, add_words_nonempty.
  - intros w ls [=].
Qed.

Lemma label_hits_nil (km : Dict.t (list label)) (ws : list str) :
  km_nonempty km ->
  (label_hits km ws = [] <-> forall w, In w ws -> Dict.get km w = None).
Proof.
  intros Hne. unfold label_hits. induction ws as [|w ws IH]; simpl.
  - split; [intros _ ? []|reflexivity].
  - split.
    + intros H. apply app_eq_nil in H as [Hw Hws].
      intros w' [<-|Hin]; [|now apply IH].
      destruct (Dict.get km w) as [ls|] eqn:E; [|reflexivity].
      now apply Hne in E.
    + intros H. rewrite (H w) by now left. simpl.
      apply IH. intros; apply H; now right.
Qed.

Lemma count_matches_spec (km : Dict.t (list label)) (ws : list str) :
  let m := count_matches km ws in
  NoDup (map fst m) /\
  (forall l, counter m l = match_count (label_hits km ws) l) /\
  (m = [] <-> label_hits km ws = []).
Proof.
  unfold count_matches. rewrite count_matches_fold.
  destruct (counters_fold (label_hits km ws) [] (NoDup_nil _)) as [Hnd Hc].
  split; [exact Hnd|]. split; [exact Hc|].
  split.
  - intros Hm. destruct (label_hits km ws) as [|h hits] eqn:E; [reflexivity|].
    specialize (Hc h). rewrite Hm in Hc. unfold match_count in Hc.
    simpl in Hc. rewrite label_eqb_refl in Hc. discriminate.
  - intros ->. reflexivity.
Qed.

Lemma confidence_of_bounds (score nwords : nat) :
  (0 <= confidence_of score nwords)%Q /\ (confidence_of score nwords <= 1)%Q.
Proof.
  unfold confidence_of. split; [|apply Q.le_min_r].
  apply Q.min_glb; [|discriminate].
  apply Qmult_le_0_compat.
  - change 0%Q with (inject_Z 0). rewrite <- Zle_Qle. lia.
  - apply Qinv_le_0_compat.
    apply Qle_trans with 1%Q; [discriminate|apply Q.le_max_r].
Qed.

Lemma confidence_of_zero (nwords : nat) : (confidence_of 0 nwords == 0)%Q.
Proof.
  unfold confidence_of. simpl inject_Z.
  unfold Qdiv. rewrite Qmult_0_l. apply Q.min_l. discriminate.
Qed.

Lemma confidence_of_comm (score nwords : nat) :
  (confidence_of score nwords ==
   Qmin (inject_Z (Z.of_nat score)
         / Qmax ((1 # 10) * inject_Z (Z.of_nat nwords)) 1) 1)%Q.
Proof.
  unfold confidence_of.
  now rewrite (Qmult_comm (inject_Z (Z.of_nat nwords))).
Qed.

End KeywordMap.

(** C3. The classifier's confidence is
    [min(bestScore / max(0.1 * wordCount, 1), 1.0)], where [wordCount] is
    the number of normalized words and [bestScore] the highest number of
    hits of one label; it lies in [0, 1]; and the result is all-null with
    confidence 0 exactly when the normalized input is empty or none of its
    words is in the keyword index. *)
Theorem classify_text_confidence
    (U : Unicode) (tax : taxonomy) (text title : str) :
  let km := _build_keyword_map U tax in
  let normalized := _normalize_text U (strip (title ++ [SP] ++ text)) in
  let ws := split_ws normalized in
  let best := best_score (label_hits km ws) in
  let '(area, subarea, topic, conf) := classify_text U km text title in
  (conf == Qmin (inject_Z (Z.of_nat best)
                 / Qmax ((1 # 10) * inject_Z (Z.of_nat (List.length ws))) 1) 1)%Q
  /\ (0 <= conf)%Q /\ (conf <= 1)%Q
  /\ ((area = None /\ subarea = None /\ topic = None /\ (conf == 0)%Q)
      <-> (normalized = [] \/ forall w, In w ws -> Dict.get km w = None)).
Proof.
  intros km normalized ws best.
  pose proof (build_keyword_map_nonempty U tax) as Hne. fold km in Hne.
  assert (Hnull : best = 0 ->
    (Qmin (inject_Z (Z.of_nat best)
           / Qmax ((1 # 10) * inject_Z (Z.of_nat (List.length ws))) 1) 1 == 0)%Q).
  { intros ->. rewrite <- confidence_of_comm. apply confidence_of_zero. }
  unfold classify_text. fold normalized.
  destruct normalized as [|c0 n0] eqn:En.
  - assert (best = 0) as Hb by reflexivity.
    split; [symmetry; auto|]. split; [discriminate|]. split; [discriminate|].
    split; [now left|]. intros _. repeat split; reflexivity.
  - fold ws.
    destruct (count_matches_spec km ws) as [Hnd [Hc Hnil]].
    destruct (count_matches km ws) as [|m0 m] eqn:Em.
    + assert (Hh : label_hits km ws = []) by now apply Hnil.
      assert (best = 0) as Hb by (unfold best; now rewrite Hh).
      split; [symmetry; auto|]. split; [discriminate|]. split; [discriminate|].
      split; [intros _; right; now apply label_hits_nil|].
      intros _. repeat split; reflexivity.
    + destruct (best_of_max m0 m) as [Hin Hmax].
      destruct (best_of m0 m) as [[[area subarea] topic] score] eqn:Eb.
      pose proof (counter_entry _ _ _ Hnd Hin) as Hscore.
      rewrite Hc in Hscore.
      assert (Hpos : score <> 0).
      { intros ->. destruct m0 as [l0 n0'].
        assert (n0' = 0).
        { specialize (Hmax (l0, n0') (or_introl eq_refl)). simpl in Hmax. lia. }
        subst n0'.
        pose proof (counter_entry _ _ _ Hnd (or_introl eq_refl)) as H0.
        rewrite Hc in H0.
        assert (Hl0 : label_hits km ws <> []).
        { intros E. apply Hnil in E. discriminate. }
        clear - H0 Hc Hnd Hmax Hl0.
        destruct (label_hits km ws) as [|h hits] eqn:Eh; [congruence|].
        assert (Hh : match_count (h :: hits) h <> 0).
        { unfold match_count; simpl. now rewrite label_eqb_refl. }
        rewrite <- Hc in Hh. apply counter_positive in Hh.
        apply Hmax in Hh. simpl in Hh. rewrite Hc in Hh.
        unfold match_count in Hh; simpl in Hh.
        rewrite label_eqb_refl in Hh. simpl in Hh. lia. }
      assert (Hbest : best = score).
      { apply best_score_unique.
        - intros l _. rewrite <- Hc.
          destruct (Nat.eq_dec (counter (m0 :: m) l) 0) as [->|Hn]; [lia|].
          apply counter_positive in Hn. apply Hmax in Hn. exact Hn.
        - exists (area, subarea, topic). split; [|exact Hscore].
          apply match_count_in. congruence. }
      rewrite Hbest.
      split; [apply confidence_of_comm|].
      split; [apply confidence_of_bounds|]. split; [apply confidence_of_bounds|].
      split; [intros [[=] _]|].
      intros [[=]|Hall]. apply label_hits_nil in Hall; [|exact Hne].
      apply Hnil in Hall. discriminate.
Qed.

(** ** Relevance scorer *)

(** The three independent adjustments of the score. *)
Definition priority_adjust (area : option str) : Z :=
  match area with
  | Some a => if in_dec (list_eq_dec N.eq_dec) a high_priority_areas
              then 1%Z else 0%Z
  | None => 0%Z
  end.

Definition confidence_adjust (confidence : Q) : Z :=
  if Qlt_le_dec (7 # 10) confidence then 1%Z
  else if Qlt_le_dec confidence (4 # 10) then (-1)%Z
  else 0%Z.

Definition length_adjust (n : nat) : Z :=
  if lt_dec 1000 n then 1%Z else if lt_dec n 200 then (-1)%Z else 0%Z.

Definition clamp (lo hi x : Z) : Z := Z.max lo (Z.min hi x).

Lemma Qltb_lt (a b : Q) : Qltb a b = true <-> (a < b)%Q.
Proof.
  unfold Qltb. rewrite negb_true_iff, <- not_true_iff_false, Qle_bool_iff.
  split; [apply Qnot_le_lt|apply Qlt_not_le].
Qed.

Lemma Qltb_ge (a b : Q) : Qltb a b = false <-> (b <= a)%Q.
Proof.
  unfold Qltb. rewrite negb_false_iff. apply Qle_bool_iff.
Qed.

Lemma area_missing_spec (area : option str) :
  area_missing area = true <-> area = None \/ area = Some [].
Proof.
  destruct area as [[|c a]|]; simpl; split; intros H; auto;
    try discriminate; destruct H; discriminate.
Qed.

Lemma high_priority_adjust (area : option str) :
  priority_adjust area = if high_priority area then 1%Z else 0%Z.
Proof.
  destruct area as [a|]; unfold priority_adjust, high_priority; [|reflexivity].
  destruct (in_dec (list_eq_dec N.eq_dec) a high_priority_areas) as [Hin|Hn].
  - assert (existsb (str_eqb a) high_priority_areas = true) as ->; auto.
    apply existsb_exists. exists a. auto using str_eqb_refl.
  - destruct (existsb (str_eqb a) high_priority_areas) eqn:E; [|reflexivity].
    apply existsb_exists in E as [b [Hb E]]. apply str_eqb_eq in E. now subst.
Qed.

(** C4. The relevance score is 1 when the area is absent (no label, or the
    empty label: Python's [not area]) or the confidence is below the
    configured threshold; otherwise it is 3 plus the priority, confidence
    and content-length adjustments, clamped once to [1, 5]; in every case
    it lies in [1, 5]. *)
Theorem calculate_relevancia_cacd_spec
    (config : Config) (note : Note.t) (area : option str) (confidence : Q) :
  let r := _calculate_relevancia_cacd config note area confidence in
  (1 <= r <= 5)%Z /\
  ((area = None \/ area = Some []
    \/ (confidence < relevancia_threshold config)%Q) -> r = 1%Z) /\
  (~ (area = None \/ area = Some []
      \/ (confidence < relevancia_threshold config)%Q) ->
   r = clamp 1 5 (3 + priority_adjust area + confidence_adjust confidence
                  + length_adjust (List.length (Note.content note)))).
Proof.
  cbv zeta. unfold _calculate_relevancia_cacd.
  destruct (area_missing area || Qltb confidence (relevancia_threshold config))
    eqn:Hgate.
  - split; [lia|]. split; [reflexivity|]. intros Hn. exfalso; apply Hn.
    apply orb_true_iff in Hgate as [H|H].
    + apply area_missing_spec in H. tauto.
    + apply Qltb_lt in H. tauto.
  - apply orb_false_iff in Hgate as [Ha Hc].
    split; [lia|]. split.
    + intros [H|[H|H]].
      * subst. discriminate.
      * subst. discriminate.
      * apply Qltb_lt in H. congruence.
    + intros _. unfold clamp. f_equal. f_equal.
      rewrite high_priority_adjust. unfold confidence_adjust, length_adjust.
      destruct (Qlt_le_dec (7 # 10) confidence) as [H7|H7].
      * apply Qltb_lt in H7. rewrite H7.
        destruct (lt_dec 1000 (List.length (Note.content note))) as [Hl|Hl].
        -- apply Nat.ltb_lt in Hl. rewrite Hl.
           destruct (high_priority area); lia.
        -- apply Nat.ltb_nlt in Hl. rewrite Hl.
           destruct (lt_dec (List.length (Note.content note)) 200) as [Hs|Hs];
             [apply Nat.ltb_lt in Hs|apply Nat.ltb_nlt in Hs]; rewrite Hs;
             destruct (high_priority area); lia.
      * apply Qltb_ge in H7. rewrite H7.
        destruct (Qlt_le_dec confidence (4 # 10)) as [H4|H4];
          [apply Qltb_lt in H4|apply Qltb_ge in H4]; rewrite H4;
          (destruct (lt_dec 1000 (List.length (Note.content note))) as [Hl|Hl];
           [apply Nat.ltb_lt in Hl; rewrite Hl; destruct (high_priority area); lia|]);
          apply Nat.ltb_nlt in Hl; rewrite Hl;
          (destruct (lt_dec (List.length (Note.content note)) 200) as [Hs|Hs];
           [apply Nat.ltb_lt in Hs|apply Nat.ltb_nlt in Hs]); rewrite Hs;
          destruct (high_priority area); lia.
Qed.

(** The note "geografia" (nine characters) under area "Geografia" with
    confidence 1: base 3, priority +1, confidence +1, length -1. *)
Lemma calculate_relevancia_cacd_witness :
  _calculate_relevancia_cacd _default_config Vault.geo_note
    (Some (u "Geografia")) 1
  = clamp 1 5 (3 + priority_adjust (Some (u "Geografia"))
               + confidence_adjust 1
               + length_adjust (List.length (Note.content Vault.geo_note))).
Proof.
  refine (proj2 (proj2 (calculate_relevancia_cacd_spec _default_config
                          Vault.geo_note (Some (u "Geografia")) 1)) _).
  intros [H|[H|H]]; [discriminate H|discriminate H|].
  vm_compute in H. discriminate H.
Defined.

(** A confidence below the threshold resolves to 1, whatever the area. *)
Example relevancia_below_threshold :
  _calculate_relevancia_cacd _default_config Vault.urban_note
    (Some (u "Geografia")) (2 # 10) = 1%Z.
Proof. reflexivity. Qed.

(** ** Connection finder *)

Section Connections.
Variable config : Config.
Variables (note : Note.t) (area subarea : option str).

(** The store items the loop appends: other notes related by header. *)
Definition candidate (kn : str * Note.t) : bool :=
  negb (str_eqb (fst kn) (Note.id note)) && related (snd kn) area subarea.

Definition candidates (items : list (str * Note.t)) : list str :=
  map (fun kn => Note.title (snd kn)) (filter candidate items).

Lemma connect_spec (items : list (str * Note.t)) (acc : list str) :
  connect config note area subarea items acc =
  acc ++ firstn
           (Z.to_nat (Z.max 1 (conexoes_max config - Z.of_nat (List.length acc))))
           (candidates items).
Proof.
  revert acc. induction items as [|[k n] items IH]; intros acc; simpl.
  - rewrite firstn_nil. now rewrite app_nil_r.
  - unfold candidates, candidate in *. simpl.
    destruct (str_eqb k (Note.id note)); simpl; [apply IH|].
    destruct (related n area subarea); simpl; [|apply IH].
    destruct (Z.leb_spec (conexoes_max config)
                (Z.of_nat (List.length (acc ++ [Note.title n])))) as [Hle|Hgt];
      rewrite length_app in *; simpl List.length in *.
    + replace (Z.to_nat (Z.max 1 (conexoes_max config - Z.of_nat (List.length acc))))
        with 1 by lia.
      reflexivity.
    + rewrite IH. rewrite length_app. simpl List.length.
      replace (Z.to_nat (Z.max 1 (conexoes_max config - Z.of_nat (List.length acc))))
        with (S (Z.to_nat (Z.max 1 (conexoes_max config
                                    - Z.of_nat (List.length acc + 1)))))
        by lia.
      simpl. now rewrite <- app_assoc.
Qed.

Lemma suggest_connections_spec (notes : Dict.t Note.t) :
  _suggest_connections config notes note area subarea =
  firstn (Z.to_nat (Z.max 1 (conexoes_max config))) (candidates notes).
Proof.
  unfold _suggest_connections. rewrite connect_spec. simpl.
  now rewrite Z.sub_0_r.
Qed.

End Connections.

(** With a configured maximum of at least one, the connection finder returns
    the titles of the first [conexoes_max] other notes whose header area or
    subarea equals the given one, in store order. *)
Lemma suggest_connections_bounded (config : Config) (notes : Dict.t Note.t)
    (note : Note.t) (area subarea : option str) :
  (1 <= conexoes_max config)%Z ->
  let r := _suggest_connections config notes note area subarea in
  r = firstn (Z.to_nat (conexoes_max config)) (candidates note area subarea notes)
  /\ (Z.of_nat (List.length r) <= conexoes_max config)%Z.
Proof.
  intros Hc r. unfold r. rewrite suggest_connections_spec.
  rewrite Z.max_r by exact Hc. split; [reflexivity|].
  rewrite length_firstn. lia.
Qed.

(** ** Complete metadata *)

Lemma has_complete_metadata_spec (note : Note.t) :
  _has_complete_metadata note = true <->
  exists va vr,
    Dict.get (Note.frontmatter note) (u "area") = Some va /\ truthy va = true /\
    Dict.get (Note.frontmatter note) (u "relevancia_cacd") = Some vr /\
    truthy vr = true.
Proof.
  unfold _has_complete_metadata, has_field. cbn [forallb].
  rewrite andb_true_r, andb_true_iff.
  destruct (Dict.get (Note.frontmatter note) (u "area")) as [va|];
    destruct (Dict.get (Note.frontmatter note) (u "relevancia_cacd")) as [vr|];
    split.
  all: try (intros [H1 H2]; try discriminate; exists va, vr; auto).
  all: try (intros [va' [vr' [H1 [H2 [H3 H4]]]]]; try discriminate;
            injection H1 as <-; injection H3 as <-; auto).
Qed.

Lemma suggestions_only_from_incomplete
    (U : Unicode) (ord : SetOrder) (config : Config) (tax : taxonomy)
    (notes : Dict.t Note.t) (s : Suggestion.t) :
  In s (suggestions_to_review U ord config tax notes) ->
  exists k n, In (k, n) notes /\ _has_complete_metadata n = false /\
              Suggestion.note_id s = Note.id n.
Proof.
  unfold suggestions_to_review. rewrite in_flat_map.
  intros [[k n] [Hin Hs]]. unfold review_entry in Hs. simpl in Hs.
  destruct (_has_complete_metadata n) eqn:Hc; simpl in Hs; [destruct Hs|].
  exists k, n. split; [exact Hin|]. split; [exact Hc|].
  destruct (nonempty_label _); [|destruct Hs].
  destruct Hs as [<-|[]]. unfold analyze_note. rewrite Hc.
  destruct (classify_text _ _ _ _) as [[[? ?] ?] ?]. reflexivity.
Qed.

(** C5. A note whose header has non-empty [area] and [relevancia_cacd]
    fields is answered with the empty suggestion of confidence 1.0, and it
    contributes no section to a review file: its own iteration of the
    generation loop adds nothing, and in a store where its id belongs to no
    other note, no suggestion under review carries that id. *)
Theorem complete_metadata_skipped
    (U : Unicode) (ord : SetOrder) (config : Config) (tax : taxonomy)
    (notes : Dict.t Note.t) (note : Note.t) (va vr : value) :
  Dict.get (Note.frontmatter note) (u "area") = Some va -> truthy va = true ->
  Dict.get (Note.frontmatter note) (u "relevancia_cacd") = Some vr ->
  truthy vr = true ->
  analyze_note U ord config tax notes note =
    {| Suggestion.note_id := Note.id note;
       Suggestion.area := None; Suggestion.subarea := None;
       Suggestion.topico := None; Suggestion.tags := [];
       Suggestion.relevancia_cacd := None; Suggestion.conexoes := [];
       Suggestion.confidence := 1 |}
  /\ review_entry U ord config tax notes note = []
  /\ ((forall k n, In (k, n) notes -> Note.id n = Note.id note -> n = note) ->
      forall s, In s (suggestions_to_review U ord config tax notes) ->
                Suggestion.note_id s <> Note.id note).
Proof.
  intros Ha Hta Hr Htr.
  assert (Hc : _has_complete_metadata note = true).
  { apply has_complete_metadata_spec. exists va, vr. auto. }
  split; [unfold analyze_note; now rewrite Hc|].
  split; [unfold review_entry; now rewrite Hc|].
  intros Hown s Hs Hid.
  apply suggestions_only_from_incomplete in Hs as [k [n [Hin [Hn Hsn]]]].
  rewrite Hid in Hsn. symmetry in Hsn.
  rewrite (Hown k n Hin Hsn) in Hn. congruence.
Qed.

(** ** Connections when classification found no label *)

Lemma in_firstn_or_full {A} (x : A) (l : list A) (n : nat) :
  In x l -> In x (firstn n l) \/ List.length (firstn n l) = n.
Proof.
  intros Hin. destruct (Nat.le_gt_cases (List.length l) n) as [Hle|Hgt].
  - left. now rewrite firstn_all2.
  - right. rewrite length_firstn. lia.
Qed.

Lemma related_without_labels (other : Note.t) :
  fm_get (Note.frontmatter other) (u "area") = VNone ->
  related other None None = true.
Proof. intros H. unfold related. now rewrite H. Qed.

(** C10. When the connection finder is called with no area and no subarea,
    as [analyze_note] does when classification found no label, every other
    stored note whose header has neither an [area] nor a [subarea] (missing
    or null) is collected, up to the configured maximum. *)
Theorem connections_without_labels
    (config : Config) (notes : Dict.t Note.t) (note : Note.t)
    (k : str) (other : Note.t) :
  In (k, other) notes ->
  k <> Note.id note ->
  fm_get (Note.frontmatter other) (u "area") = VNone ->
  fm_get (Note.frontmatter other) (u "subarea") = VNone ->
  let r := _suggest_connections config notes note None None in
  (In (Note.title other) r \/ (conexoes_max config <= Z.of_nat (List.length r))%Z)
  /\ forall U ord tax confidence,
       _has_complete_metadata note = false ->
       classify_text U (keyword_map U tax) (Note.content note) (Note.title note)
         = (None, None, None, confidence) ->
       Suggestion.conexoes (analyze_note U ord config tax notes note) = r.
Proof.
  intros Hin Hk Ha Hs r. split.
  - unfold r. rewrite suggest_connections_spec.
    assert (Hc : In (Note.title other) (candidates note None None notes)).
    { unfold candidates. apply in_map_iff. exists (k, other). split; [reflexivity|].
      apply filter_In. split; [exact Hin|]. unfold candidate. simpl.
      rewrite related_without_labels by exact Ha.
      destruct (str_eqb k (Note.id note)) eqn:E; [|reflexivity].
      apply str_eqb_eq in E. contradiction. }
    destruct (in_firstn_or_full _ _ (Z.to_nat (Z.max 1 (conexoes_max config))) Hc)
      as [H|H]; [now left|right]. rewrite H. lia.
  - intros U ord tax confidence Hinc Hcl. unfold analyze_note.
    rewrite Hinc, Hcl. reflexivity.
Qed.

(** ** Tag limit *)

Lemma generate_tags_at_most_five (U : Unicode) (ord : SetOrder)
    (text title : str) (area : option str) :
  List.length (generate_tags U ord text title area) <= 5.
Proof. unfold generate_tags. rewrite length_firstn. lia. Qed.

Lemma generate_tags_length (U : Unicode) (ord : SetOrder)
    (text title : str) (area : option str) :
  List.length (generate_tags U ord text title area)
  = Nat.min 5 (List.length (tag_set U text title area)).
Proof.
  unfold generate_tags. rewrite length_firstn.
  now rewrite (Permutation_length (arrange_perm ord _)).
Qed.


Lemma complete_metadata_skipped_witness :
  analyze_note Latin1.db insertion_order _default_config Vault.geo_tax
    Vault.mixed_notes Vault.paraguai_note =
    {| Suggestion.note_id := u "guerra-do-paraguai.md";
       Suggestion.area := None; Suggestion.subarea := None;
       Suggestion.topico := None; Suggestion.tags := [];
       Suggestion.relevancia_cacd := None; Suggestion.conexoes := [];
       Suggestion.confidence := 1 |}
  /\ review_entry Latin1.db insertion_order _default_config Vault.geo_tax
       Vault.mixed_notes Vault.paraguai_note = [].
Proof.
  destruct (complete_metadata_skipped Latin1.db insertion_order _default_config
              Vault.geo_tax Vault.mixed_notes Vault.paraguai_note
              (VStr (u "História do Brasil")) (VInt 5)
              eq_refl eq_refl eq_refl eq_refl) as [H1 [H2 _]].
  split; [exact H1|exact H2].
Defined.

Lemma connections_without_labels_witness :
  In (u "urbanizacao-brasil") 
     (_suggest_connections _default_config Vault.mixed_notes Vault.war_note
        None None)
  \/ (conexoes_max _default_config <=
      Z.of_nat (List.length
        (_suggest_connections _default_config Vault.mixed_notes Vault.war_note
           None None)))%Z.
Proof.
  refine (proj1 (connections_without_labels _default_config Vault.mixed_notes
            Vault.war_note (u "urbanizacao-brasil.md") Vault.urban_note
            _ _ eq_refl eq_refl)).
  - right; right; left; reflexivity.
  - intros H; discriminate H.
Defined.

(** ** Where the code departs from its specification *)

(** C7, at a configuration whose [max_tags] is 2: the note "Guerra e paz na
    ONU" is given four tags, whatever the iteration order of the tag set,
    because [generate_tags] truncates at the constant 5 and never reads
    [max_tags]. *)
Theorem generate_tags_ignores_max_tags (ord : SetOrder) :
  max_tags Vault.two_tags = 2 /\
  List.length
    (Suggestion.tags
       (analyze_note Latin1.db ord Vault.two_tags Vault.geo_tax
          Vault.mixed_notes Vault.war_note)) = 4.
Proof.
  split; [reflexivity|].
  assert (E : Suggestion.tags
                (analyze_note Latin1.db ord Vault.two_tags Vault.geo_tax
                   Vault.mixed_notes Vault.war_note)
              = generate_tags Latin1.db ord (Note.content Vault.war_note)
                  (Note.title Vault.war_note) None).
  { unfold analyze_note.
    replace (_has_complete_metadata Vault.war_note) with false
      by (vm_compute; reflexivity).
    replace (classify_text Latin1.db (keyword_map Latin1.db Vault.geo_tax)
               (Note.content Vault.war_note) (Note.title Vault.war_note))
      with (@None str, @None str, @None str, 0%Q) by (vm_compute; reflexivity).
    reflexivity. }
  rewrite E, generate_tags_length. vm_compute. reflexivity.
Qed.

(** C8, at a configured maximum of 0: the finder still returns one title,
    because the limit is tested only after a title has been appended. *)
Theorem suggest_connections_exceeds_zero_maximum :
  conexoes_max Vault.no_connections = 0%Z /\
  _suggest_connections Vault.no_connections Vault.mixed_notes Vault.war_note
    (Some (u "História do Brasil")) None = [u "Guerra do Paraguai"].
Proof. split; vm_compute; reflexivity. Qed.

(** C2, on the first run with backup enabled (the default): the note's file
    is renamed to the backup name, the read of the original path then
    fails, and the call returns [False] with nothing at the original path
    and the note's header unchanged. *)
Theorem apply_with_backup_leaves_no_file (Y : Yaml) (changes : Dict.t value) :
  backup_original _default_config = true /\
  fs_exists Vault.geo_fs (u "/vault/geografia.bak") = false /\
  let '(ok, fs', note') :=
    _apply_metadata_changes Y _default_config Vault.geo_fs Vault.geo_note
      changes in
  ok = false /\
  fs_read fs' (u "/vault/geografia.md") = None /\
  fs_read fs' (u "/vault/geografia.bak") = Some (u "geografia") /\
  note' = Vault.geo_note.
Proof. vm_compute. repeat split; reflexivity. Qed.

(** C9, with the default configuration: every approved note's apply fails
    after its file was renamed to the backup name, so the failing note's
    stored file is not left unchanged; [process_feedback_file] still
    reports success. *)
Theorem failed_apply_moves_stored_file (Y : Yaml) :
  let review :=
    generate_feedback_file Latin1.db insertion_order _default_config
      Vault.geo_tax (u "/vault") Vault.now Vault.geo_notes Vault.geo_fs in
  let fs := Vault.marked (snd review) (u "/vault/cacd_feedback.md") in
  fs_read fs (u "/vault/geografia.md") = Some (u "geografia") /\
  let '(ok, fs', notes') :=
    process_feedback_file Latin1.db Y _default_config (u "/vault") fs
      Vault.geo_notes in
  ok = true /\
  fs_read fs' (u "/vault/geografia.md") = None /\
  fs_read fs' (u "/vault/geografia.bak") = Some (u "geografia") /\
  notes' = Vault.geo_notes.
Proof. vm_compute. repeat split; reflexivity. Qed.

(** C1, with backup disabled so that files are written: the note is
    suggested area "Geografia" and relevance 4, both are emitted in the
    review file, every box is marked, and processing writes the area only.
    Each checked line is looked up with [list.index], which finds the first
    checked line of the file, so every approval reads the first field. *)
Theorem roundtrip_writes_first_field_only (Y : Yaml) :
  let s := analyze_note Latin1.db insertion_order Vault.no_backup Vault.geo_tax
             Vault.geo_notes Vault.geo_note in
  Suggestion.area s = Some (u "Geografia") /\
  Suggestion.relevancia_cacd s = Some 4%Z /\
  fst Vault.geo_review = true /\
  option_map (contains (u "- **Relevância CACD:** 4/5"))
    (fs_read (snd Vault.geo_review) (u "/vault/cacd_feedback.md")) = Some true /\
  let '(ok, fs', notes') :=
    process_feedback_file Latin1.db Y Vault.no_backup (u "/vault")
      Vault.geo_marked Vault.geo_notes in
  ok = true /\
  option_map Note.frontmatter (Dict.get notes' (u "geografia.md"))
    = Some [(u "area", VStr (u "Geografia"))] /\
  fs_read fs' (u "/vault/geografia.md")
    = Some (rebuild Y [(u "area", VStr (u "Geografia"))] (u "geografia")).
Proof. vm_compute. repeat split; reflexivity. Qed.

(** ** What does hold of applying changes *)

Lemma dict_get_remove_other {V} (d : Dict.t V) (k k' : str) :
  k <> k' -> Dict.get (Dict.remove d k) k' = Dict.get d k'.
Proof.
  intros Hk. induction d as [|[k0 v0] d IH]; simpl; [reflexivity|].
  destruct (str_eqb k0 k) eqn:E; simpl.
  - apply str_eqb_eq in E; subst.
    destruct (str_eqb k k') eqn:E'; [|reflexivity].
    apply str_eqb_eq in E'. contradiction.
  - now rewrite IH.
Qed.

Lemma dict_get_in {V} (d : Dict.t V) (k : str) (v : V) :
  Dict.get d k = Some v -> In (k, v) d.
Proof.
  induction d as [|[k0 v0] d IH]; simpl; [discriminate|].
  destruct (str_eqb k0 k) eqn:E.
  - apply str_eqb_eq in E. intros [= ->]. subst. now left.
  - intros H; right; auto.
Qed.

Lemma dict_get_remove_same {V} (d : Dict.t V) (k : str) :
  NoDup (map fst d) -> Dict.get (Dict.remove d k) k = None.
Proof.
  induction d as [|[k0 v0] d IH]; simpl; [reflexivity|].
  intros Hnd. inversion Hnd as [|? ? Hk0 Hnd']; subst.
  destruct (str_eqb k0 k) eqn:E; simpl.
  - apply str_eqb_eq in E; subst.
    destruct (Dict.get d k) as [v|] eqn:G; [|reflexivity].
    exfalso; apply Hk0. apply dict_get_in in G.
    apply in_map_iff. now exists (k, v).
  - rewrite E. auto.
Qed.

Lemma dict_in_get {V} (d : Dict.t V) (k : str) (v : V) :
  NoDup (map fst d) -> In (k, v) d -> Dict.get d k = Some v.
Proof.
  induction d as [|[k0 v0] d IH]; simpl; [intros _ []|].
  intros Hnd Hin. inversion Hnd as [|? ? Hk0 Hnd']; subst.
  destruct Hin as [[= -> ->]|Hin]; [now rewrite str_eqb_refl|].
  destruct (str_eqb k0 k) eqn:E; [|auto].
  apply str_eqb_eq in E; subst. exfalso; apply Hk0.
  apply in_map_iff. now exists (k, v).
Qed.

Lemma dict_set_same {V} (d : Dict.t V) (k : str) (v : V) :
  Dict.get d k = Some v -> Dict.set d k v = d.
Proof.
  induction d as [|[k0 v0] d IH]; simpl; [discriminate|].
  destruct (str_eqb k0 k) eqn:E.
  - now intros [= ->].
  - intros H. now rewrite IH.
Qed.

Lemma find_note_by_title_in (notes : Dict.t Note.t) (title k : str)
    (note : Note.t) :
  _find_note_by_title notes title = Some (k, note) -> In (k, note) notes.
Proof.
  induction notes as [|[k0 n0] notes IH]; simpl; [discriminate|].
  destruct (str_eqb (Note.title n0) title).
  - intros [= -> ->]. now left.
  - intros H; right; auto.
Qed.

Section ApplyFacts.
Variable Y : Yaml.
Variable config : Config.

(** No backup is taken by this call: backup is disabled or already there. *)
Definition no_rename (fs : FS) (note : Note.t) : Prop :=
  backup_original config = false \/
  fs_exists fs (with_suffix (Note.file_path note) (u ".bak")) = true.

(** A failed apply that took no backup leaves files and note as they were. *)
Lemma failed_apply_without_rename (fs : FS) (note : Note.t)
    (changes : Dict.t value) :
  no_rename fs note ->
  fst (fst (_apply_metadata_changes Y config fs note changes)) = false ->
  _apply_metadata_changes Y config fs note changes = (false, fs, note).
Proof.
  intros Hno. unfold _apply_metadata_changes.
  assert (Hb : (if backup_original config
                then if negb (fs_exists fs (with_suffix (Note.file_path note) (u ".bak")))
                     then match fs_rename fs (Note.file_path note)
                                  (with_suffix (Note.file_path note) (u ".bak")) with
                          | Some fs' =>
                            Some (fs', with_suffix
                                         (with_suffix (Note.file_path note) (u ".bak"))
                                         (u ".md"))
                          | None => None
                          end
                     else Some (fs, Note.file_path note)
                else Some (fs, Note.file_path note))
               = Some (fs, Note.file_path note)).
  { destruct Hno as [-> | ->]; [reflexivity|].
    now destruct (backup_original config). }
  rewrite Hb.
  destruct (fs_read fs (Note.file_path note)) as [content|]; [|reflexivity].
  destruct (reparse Y content) as [[| | | | |l|fm] body]; try reflexivity.
  destruct (fs_write fs (Note.file_path note) _); [discriminate|reflexivity].
Qed.

(** The loop of [process_feedback_file] goes on after such a failure with
    the same files and the same store. *)
Lemma apply_all_skips_failed (title : str) (changes : Dict.t value)
    (rest : approvals) (fs : FS) (notes : Dict.t Note.t) (n : nat)
    (k : str) (note : Note.t) :
  NoDup (map fst notes) ->
  _find_note_by_title notes title = Some (k, note) ->
  no_rename fs note ->
  fst (fst (_apply_metadata_changes Y config fs note changes)) = false ->
  apply_all Y config ((title, changes) :: rest) fs notes n
  = apply_all Y config rest fs notes n.
Proof.
  intros Hnd Hfind Hno Hfail. simpl. rewrite Hfind.
  rewrite (failed_apply_without_rename fs note changes Hno Hfail).
  rewrite dict_set_same; [reflexivity|].
  apply dict_in_get; [exact Hnd|]. eapply find_note_by_title_in; eauto.
Qed.

(** With backup enabled and no backup file yet, the call renames the note
    file and then fails to read it: it returns [False], the original path
    is empty and the backup holds the original content. *)
Lemma first_backup_run_fails (fs : FS) (note : Note.t)
    (changes : Dict.t value) (original : str) :
  let path := Note.file_path note in
  let backup := with_suffix path (u ".bak") in
  backup_original config = true ->
  NoDup (map fst (files fs)) ->
  fs_read fs path = Some original ->
  fs_exists fs backup = false ->
  with_suffix backup (u ".md") = path ->
  exists fs',
    _apply_metadata_changes Y config fs note changes = (false, fs', note) /\
    fs_read fs' path = None /\
    fs_read fs' backup = Some original.
Proof.
  intros path backup Hb Hnd Hread Hnobak Hback.
  assert (Hne : path <> backup).
  { intros E. unfold fs_exists, Dict.mem in Hnobak. unfold fs_read in Hread.
    rewrite <- E, Hread in Hnobak. discriminate. }
  exists {| files := Dict.set (Dict.remove (files fs) path) backup original;
            locked := locked fs |}.
  assert (Hgone : Dict.get (Dict.set (Dict.remove (files fs) path) backup original)
                    path = None).
  { rewrite dict_get_set.
    destruct (str_eqb backup path) eqn:E.
    - apply str_eqb_eq in E. congruence.
    - now apply dict_get_remove_same. }
  split; [|split].
  - unfold _apply_metadata_changes. fold path. fold backup.
    rewrite Hb, Hnobak. simpl negb. cbv iota.
    unfold fs_rename. unfold fs_read in Hread. rewrite Hread.
    rewrite Hback. unfold fs_read. cbn [files]. now rewrite Hgone.
  - exact Hgone.
  - unfold fs_read. cbn [files]. rewrite dict_get_set.
    now rewrite str_eqb_refl.
Qed.

(** A backup that already exists is neither taken again nor modified. *)
Lemma existing_backup_untouched (fs : FS) (note : Note.t)
    (changes : Dict.t value) :
  let path := Note.file_path note in
  let backup := with_suffix path (u ".bak") in
  fs_exists fs backup = true ->
  path <> backup ->
  fs_read (snd (fst (_apply_metadata_changes Y config fs note changes))) backup
  = fs_read fs backup.
Proof.
  intros path backup Hbak Hne. unfold _apply_metadata_changes.
  fold path. fold backup. rewrite Hbak. simpl negb.
  assert (H : forall o : option (FS * str), o = Some (fs, path) ->
    fs_read (snd (fst
      match o with
      | Some (fs1, file_path) =>
        match fs_read fs1 file_path with
        | Some content =>
          let (v, main_content) := reparse Y content in
          match v with
          | VDict frontmatter =>
            match fs_write fs1 file_path
                    (rebuild Y (Dict.update frontmatter changes) main_content) with
            | Some fs2 =>
              (true, fs2,
               Note.with_frontmatter note
                 (Dict.update (Note.frontmatter note) changes))
            | None => (false, fs1, note)
            end
          | _ => (false, fs1, note)
          end
        | None => (false, fs1, note)
        end
      | None => (false, fs, note)
      end)) backup = fs_read fs backup).
  { intros o ->.
    destruct (fs_read fs path) as [content|]; [|reflexivity].
    destruct (reparse Y content) as [[| | | | |l|fm] body]; try reflexivity.
    unfold fs_write.
    destruct (existsb (str_eqb path) (locked fs)); [reflexivity|].
    unfold fs_read. cbn [fst snd files]. rewrite dict_get_set.
    destruct (str_eqb path backup) eqn:E; [|reflexivity].
    apply str_eqb_eq in E. contradiction. }
  apply H. now destruct (backup_original config).
Qed.

(** Without a rename in the way, a readable note with a mapping header and
    a writable file is rewritten as the merged header followed by the body,
    and the in-memory header is merged too. *)
Lemma apply_rewrites_file (fs : FS) (note : Note.t) (changes : Dict.t value)
    (content body : str) (fm : Dict.t value) :
  let path := Note.file_path note in
  no_rename fs note ->
  fs_read fs path = Some content ->
  reparse Y content = (VDict fm, body) ->
  existsb (str_eqb path) (locked fs) = false ->
  exists fs',
    _apply_metadata_changes Y config fs note changes
    = (true, fs',
       Note.with_frontmatter note (Dict.update (Note.frontmatter note) changes))
    /\ fs_read fs' path = Some (rebuild Y (Dict.update fm changes) body).
Proof.
  intros path Hno Hread Hparse Hfree.
  exists {| files := Dict.set (files fs) path
                       (rebuild Y (Dict.update fm changes) body);
            locked := locked fs |}.
  split.
  - unfold _apply_metadata_changes. fold path.
    assert (Hb : (if backup_original config
                  then if negb (fs_exists fs (with_suffix path (u ".bak")))
                       then match fs_rename fs path (with_suffix path (u ".bak")) with
                            | Some fs' =>
                              Some (fs', with_suffix (with_suffix path (u ".bak"))
                                           (u ".md"))
                            | None => None
                            end
                       else Some (fs, path)
                  else Some (fs, path))
                 = Some (fs, path)).
    { destruct Hno as [-> | H]; [reflexivity|]. fold path in H. rewrite H.
      now destruct (backup_original config). }
    rewrite Hb, Hread, Hparse. unfold fs_write. now rewrite Hfree.
  - unfold fs_read. cbn [files]. rewrite dict_get_set.
    now rewrite str_eqb_refl.
Qed.

End ApplyFacts.

(** ** Scenarios *)


(** The classification scenario: the title "Guerra do Paraguai" over a body
    with five occurrences of "Paraguai" is classified under "História do
    Brasil" with confidence 1. *)
Example classify_paraguai :
  classify_text Latin1.db
    (_build_keyword_map Latin1.db Scenario.paraguai_tax)
    Scenario.paraguai_body (u "Guerra do Paraguai")
  = (Some (u "História do Brasil"), Some (u "Guerra do Paraguai"), None, 1%Q).
Proof. vm_compute. reflexivity. Qed.

(** An empty store yields no review file: the call returns [False] and
    leaves the file system as it was. *)
Lemma generate_feedback_file_empty (U : Unicode) (ord : SetOrder)
    (config : Config) (tax : taxonomy) (vault_path now : str) (fs : FS) :
  generate_feedback_file U ord config tax vault_path now [] fs = (false, fs).
Proof. reflexivity. Qed.

Lemma suggest_connections_bounded_witness :
  (Z.of_nat (List.length
     (_suggest_connections _default_config Vault.mixed_notes Vault.war_note
        None None)) <= 3)%Z.
Proof.
  exact (proj2 (suggest_connections_bounded _default_config Vault.mixed_notes
                  Vault.war_note None None ltac:(vm_compute; discriminate))).
Defined.

Lemma first_backup_run_fails_witness :
  exists fs',
    _apply_metadata_changes Scenario.rejecting_yaml _default_config
      Vault.geo_fs Vault.geo_note [(u "area", VStr (u "Geografia"))]
    = (false, fs', Vault.geo_note) /\
    fs_read fs' (u "/vault/geografia.md") = None /\
    fs_read fs' (u "/vault/geografia.bak") = Some (u "geografia").
Proof.
  refine (first_backup_run_fails Scenario.rejecting_yaml _default_config
            Vault.geo_fs Vault.geo_note [(u "area", VStr (u "Geografia"))]
            (u "geografia") eq_refl _ eq_refl eq_refl eq_refl).
  repeat constructor. intros [].
Defined.

Lemma apply_all_skips_failed_witness :
  apply_all Scenario.rejecting_yaml Vault.no_backup
    [(u "geografia", [(u "area", VStr (u "Geografia"))])]
    Scenario.empty_fs Vault.geo_notes 0
  = apply_all Scenario.rejecting_yaml Vault.no_backup []
      Scenario.empty_fs Vault.geo_notes 0.
Proof.
  refine (apply_all_skips_failed Scenario.rejecting_yaml Vault.no_backup
            (u "geografia") [(u "area", VStr (u "Geografia"))] []
            Scenario.empty_fs Vault.geo_notes 0 (u "geografia.md")
            Vault.geo_note _ eq_refl (or_introl eq_refl) eq_refl).
  repeat constructor. intros [].
Defined.

Lemma existing_backup_untouched_witness :
  fs_read
    (snd (fst (_apply_metadata_changes Scenario.rejecting_yaml _default_config
                 Scenario.restored_fs Vault.geo_note
                 [(u "area", VStr (u "Geografia"))])))
    (u "/vault/geografia.bak")
  = Some (u "geografia").
Proof.
  refine (existing_backup_untouched Scenario.rejecting_yaml _default_config
            Scenario.restored_fs Vault.geo_note
            [(u "area", VStr (u "Geografia"))] eq_refl _).
  intros H; discriminate H.
Defined.

Lemma apply_rewrites_file_witness :
  exists fs',
    _apply_metadata_changes Scenario.rejecting_yaml _default_config
      Scenario.restored_fs Vault.geo_note [(u "area", VStr (u "Geografia"))]
    = (true, fs',
       Note.with_frontmatter Vault.geo_note [(u "area", VStr (u "Geografia"))])
    /\ fs_read fs' (u "/vault/geografia.md")
       = Some (rebuild Scenario.rejecting_yaml
                 [(u "area", VStr (u "Geografia"))] (u "geografia")).
Proof.
  exact (apply_rewrites_file Scenario.rejecting_yaml _default_config
           Scenario.restored_fs Vault.geo_note
           [(u "area", VStr (u "Geografia"))] (u "geografia") (u "geografia") []
           (or_intror eq_refl) eq_refl eq_refl eq_refl).
Defined.

(** * Part III: further properties of the code *)

(** ** Shape of normalized text *)

(** A word of normalized text: not empty, made of word characters. *)
Definition word_text (U : Unicode) (w : str) : Prop :=
  w <> [] /\ forall c, In c w -> is_word U c = true /\ is_space c = false.

Lemma normalize_text_runs (U : Unicode) (x : str) :
  _normalize_text U x = join [SP] (split_ws (_normalize_text U x)) /\
  Forall (word_text U) (split_ws (_normalize_text U x)).
Proof.
  destruct x as [|a x]; [split; [reflexivity|constructor]|].
  cbv zeta.
  change (_normalize_text U (a :: x))
    with (join [SP] (split_ws (sub_nonword U (folded U (a :: x))))).
  pose proof (split_ws_clean (sub_nonword U (folded U (a :: x)))) as Hc.
  set (ws := split_ws (sub_nonword U (folded U (a :: x)))) in *.
  assert (Hclean : Forall clean_word ws).
  { eapply Forall_impl; [|exact Hc]. now intros w [? _]. }
  rewrite split_ws_join by exact Hclean. split; [reflexivity|].
  eapply Forall_impl; [|exact Hc]. intros w [[Hne Hns] Hsub].
  split; [exact Hne|]. intros c Hin. split; [|auto].
  eapply sub_nonword_in; eauto.
Qed.

(** Normalized text is a sequence of non-empty runs of word characters
    separated by single spaces, with no space at either end: splitting it
    at whitespace and joining with one space gives it back. *)
Theorem normalize_text_shape (U : Unicode) (x : str) :
  let y := _normalize_text U x in
  y = join [SP] (split_ws y) /\ Forall (word_text U) (split_ws y).
Proof.
  exact (normalize_text_runs U x).
Qed.

(** ** The keyword index *)

Lemma fold_left_preserves_in {A B} (P : A -> Prop) (f : A -> B -> A)
    (l : list B) (a : A) :
  (forall a x, In x l -> P a -> P (f a x)) -> P a -> P (fold_left f l a).
Proof.
  revert a. induction l as [|x l IH]; intros a Hf Ha; simpl; [exact Ha|].
  apply IH.
  - intros b y Hy. apply Hf. now right.
  - apply Hf; [now left|exact Ha].
Qed.

Section IndexFacts.
Variable U : Unicode.

(** An index key: a normalized word of more than two characters. *)
Definition index_word (w : str) : Prop := 2 < List.length w /\ word_text U w.

Definition keys_indexable (km : Dict.t (list label)) : Prop :=
  forall w ls, Dict.get km w = Some ls -> index_word w.

Lemma add_words_indexable km name l :
  keys_indexable km -> keys_indexable (add_words U km name l).
Proof.
  unfold add_words. apply fold_left_preserves_in. intros a w Hw Ha.
  destruct (Nat.ltb_spec 2 (List.length w)) as [Hlen|Hlen]; [|exact Ha].
  intros w' ls. unfold kw_append. rewrite dict_get_set.
  destruct (str_eqb w w') eqn:E; [|apply Ha].
  apply str_eqb_eq in E; subst w'. intros _. split; [exact Hlen|].
  pose proof (proj2 (normalize_text_runs U name)) as Hs.
  rewrite Forall_forall in Hs. now apply Hs.
Qed.

Lemma add_topics_indexable km area subarea ts :
  keys_indexable km -> keys_indexable (add_topics U km area subarea ts).
Proof.
  destruct ts as [l|]; simpl; [|auto].
  apply fold_left_preserves. intros a [s|] Ha; auto using add_words_indexable.
Qed.

Lemma add_subareas_indexable km area content :
  keys_indexable km -> keys_indexable (add_subareas U km area content).
Proof.
  destruct content as [d|]; simpl; [|auto].
  apply fold_left_preserves. intros a x Ha.
  auto using add_topics_indexable, add_words_indexable.
Qed.

(** Where a label comes from in the taxonomy. *)
Definition label_in (tax : taxonomy) (l : label) : Prop :=
  let '(area, subarea, topic) := l in
  match subarea with
  | None => topic = None /\ exists content, In (area, content) tax
  | Some sub =>
    exists d ts, In (area, Subareas d) tax /\ In (sub, ts) d /\
      match topic with
      | None => True
      | Some tp => exists l, ts = TopicList l /\ In (TopicStr tp) l
      end
  end.

Definition labels_from (tax : taxonomy) (km : Dict.t (list label)) : Prop :=
  forall w ls l, Dict.get km w = Some ls -> In l ls -> label_in tax l.

Lemma add_words_labels tax km name l :
  label_in tax l -> labels_from tax km -> labels_from tax (add_words U km name l).
Proof.
  intros Hl. unfold add_words. apply fold_left_preserves. intros a w Ha.
  destruct (2 <? List.length w); [|exact Ha].
  intros w' ls l'. unfold kw_append. rewrite dict_get_set.
  destruct (str_eqb w w'); [|apply Ha].
  intros [= <-]. destruct (Dict.get a w) as [l0|] eqn:E.
  - rewrite in_app_iff. intros [H|[<-|[]]]; [eapply Ha; eauto|exact Hl].
  - intros [<-|[]]. exact Hl.
Qed.

Lemma add_topics_labels tax km area d subarea l :
  In (area, Subareas d) tax -> In (subarea, TopicList l) d ->
  labels_from tax km ->
  labels_from tax (add_topics U km area subarea (TopicList l)).
Proof.
  intros Ha Hs. simpl. apply fold_left_preserves_in. intros a [s|] Hin Hk; auto.
  apply add_words_labels; [|exact Hk].
  simpl. exists d, (TopicList l). repeat split; auto. now exists l.
Qed.

Lemma add_subareas_labels tax km area content :
  In (area, content) tax -> labels_from tax km ->
  labels_from tax (add_subareas U km area content).
Proof.
  intros Ha. destruct content as [d|]; simpl; [|auto].
  apply fold_left_preserves_in. intros a [sub ts] Hin Hk. simpl.
  assert (Hw : labels_from tax (add_words U a sub (area, Some sub, None))).
  { apply add_words_labels; [|exact Hk]. simpl. exists d, ts. auto. }
  destruct ts as [l|]; [|exact Hw].
  eapply add_topics_labels; eauto.
Qed.

End IndexFacts.

(** Every key of the keyword index is a normalized word of more than two
    characters, and it points to at least one label. *)
Theorem keyword_map_keys (U : Unicode) (tax : taxonomy) (w : str)
    (ls : list label) :
  Dict.get (_build_keyword_map U tax) w = Some ls ->
  index_word U w /\ ls <> [].
Proof.
  intros H. split; [|eapply build_keyword_map_nonempty; eauto].
  revert w ls H. change (keys_indexable U (_build_keyword_map U tax)).
  unfold _build_keyword_map. apply fold_left_preserves.
  - intros a x Ha. auto using add_subareas_indexable, add_words_indexable.
  - intros w ls [=].
Qed.

Lemma build_keyword_map_labels (U : Unicode) (tax : taxonomy) :
  labels_from tax (_build_keyword_map U tax).
Proof.
  unfold _build_keyword_map. apply fold_left_preserves_in.
  - intros a [area content] Hin Ha. simpl.
    apply add_subareas_labels; [exact Hin|].
    apply add_words_labels; [|exact Ha]. simpl. split; [reflexivity|].
    now exists content.
  - intros w ls l [=].
Qed.

Lemma bump_fold_keys (hits : list label) (m : list (label * nat)) (l : label) :
  In l (map fst (fold_left bump hits m)) -> In l (map fst m) \/ In l hits.
Proof.
  revert m. induction hits as [|h hits IH]; intros m; simpl; [auto|].
  intros H. apply IH in H as [H|H]; [|auto].
  rewrite bump_keys in H.
  destruct (existsb (label_eqb h) (map fst m)); [auto|].
  apply in_app_iff in H as [H|[<-|[]]]; auto.
Qed.

(** The labels the classifier returns are labels of the taxonomy: the area
    is one of its areas, the subarea one of that area's subareas, the topic
    one of that subarea's topics. *)
Theorem classify_text_in_taxonomy (U : Unicode) (tax : taxonomy)
    (text title area : str) (subarea topic : option str) (confidence : Q) :
  classify_text U (_build_keyword_map U tax) text title
    = (Some area, subarea, topic, confidence) ->
  label_in tax (area, subarea, topic).
Proof.
  unfold classify_text.
  destruct (_normalize_text U (strip (title ++ [SP] ++ text))) as [|c0 n0];
    [discriminate|].
  set (ws := split_ws (c0 :: n0)).
  destruct (count_matches (_build_keyword_map U tax) ws) as [|m0 m] eqn:Em;
    [discriminate|].
  destruct (best_of_max m0 m) as [Hin _].
  destruct (best_of m0 m) as [[[a s] t] score]. intros [= -> -> -> _].
  assert (Hk : In (area, subarea, topic)
                 (map fst (count_matches (_build_keyword_map U tax) ws))).
  { rewrite Em. apply in_map_iff. now exists (area, subarea, topic, score). }
  unfold count_matches in Hk. rewrite count_matches_fold in Hk.
  apply bump_fold_keys in Hk as [[]|Hk].
  unfold label_hits in Hk. apply in_flat_map in Hk as [w [_ Hw]].
  destruct (Dict.get (_build_keyword_map U tax) w) as [ls|] eqn:E; [|destruct Hw].
  eapply build_keyword_map_labels; eauto.
Qed.

(** A taxonomy file that is missing or is not valid YAML is read as the
    empty taxonomy, and the classifier then finds no label in any text. *)
Theorem unreadable_taxonomy_classifies_nothing (U : Unicode) (Y : Yaml)
    (fs : FS) (taxonomy_path text title : str) :
  (fs_read fs taxonomy_path = None \/
   exists t, fs_read fs taxonomy_path = Some t /\ safe_load Y t = None) ->
  taxonomy_analyzer U Y fs taxonomy_path = Some ([], []) /\
  classify_text U [] text title = (None, None, None, 0%Q).
Proof.
  intros H. split.
  - unfold taxonomy_analyzer, _load_taxonomy.
    destruct H as [->|[t [-> ->]]]; reflexivity.
  - unfold classify_text.
    destruct (_normalize_text U (strip (title ++ [SP] ++ text))) as [|c0 n0];
      [reflexivity|].
    assert (E : forall ws m, fold_left
                  (fun (m : list (label * nat)) (word : str) =>
                     match Dict.get ([] : Dict.t (list label)) word with
                     | Some ls => fold_left bump ls m
                     | None => m
                     end) ws m = m).
    { induction ws as [|w ws IH]; intros m; simpl; auto. }
    unfold count_matches. now rewrite E.
Qed.

(** ** Tags *)

(** The tags the generator can produce: the first two tags of each area,
    the keyword tags, and the three pattern tags. *)
Definition tag_vocabulary : list str :=
  flat_map (fun kv => firstn 2 (snd kv)) area_tags
  ++ map snd keyword_tags
  ++ [u "instrumentos-jurídicos"; u "segurança-internacional";
      u "desenvolvimento-econômico"].

Definition tags_ok (tags : list str) : Prop :=
  NoDup tags /\ forall t, In t tags -> In t tag_vocabulary.

Lemma set_add_ok (tags : list str) (t : str) (b : bool) :
  In t tag_vocabulary -> tags_ok tags ->
  tags_ok (if b then set_add tags t else tags).
Proof.
  intros Ht [Hnd Hv]. destruct b; [|now split]. unfold set_add.
  destruct (existsb (str_eqb t) tags) eqn:E; [now split|]. split.
  - apply NoDup_app; [exact Hnd|repeat constructor; intros []|].
    intros x Hx [Hxt|[]]. subst x.
    assert (existsb (str_eqb t) tags = true); [|congruence].
    apply existsb_exists. exists t. auto using str_eqb_refl.
  - intros x Hx. apply in_app_iff in Hx as [Hx|[<-|[]]]; auto.
Qed.

Lemma tag_set_ok (U : Unicode) (text title : str) (area : option str) :
  tags_ok (tag_set U text title area).
Proof.
  assert (Hp : forall t, In t [u "instrumentos-jurídicos";
                               u "segurança-internacional";
                               u "desenvolvimento-econômico"] ->
                         In t tag_vocabulary).
  { intros t Ht. unfold tag_vocabulary. apply in_or_app. right.
    apply in_or_app. now right. }
  unfold tag_set. cbv zeta.
  apply set_add_ok; [apply Hp; right; right; left; reflexivity|].
  apply set_add_ok; [apply Hp; right; left; reflexivity|].
  apply set_add_ok; [apply Hp; left; reflexivity|].
  apply fold_left_preserves_in.
  { intros tags kt Hin Hok. apply set_add_ok; [|exact Hok].
    unfold tag_vocabulary. apply in_or_app. right. apply in_or_app. left.
    now apply in_map. }
  assert (H0 : tags_ok []) by (split; [constructor|intros ? []]).
  destruct area as [[|c a]|]; try exact H0.
  destruct (Dict.get area_tags (c :: a)) as [area_words|] eqn:E; [|exact H0].
  apply fold_left_preserves_in; [|exact H0].
  intros tags tag Hin Hok. apply set_add_ok; [|exact Hok].
  unfold tag_vocabulary. apply in_or_app. left.
  apply in_flat_map. exists (c :: a, area_words).
  split; [now apply dict_get_in|exact Hin].
Qed.

Lemma NoDup_firstn {A} (n : nat) (l : list A) : NoDup l -> NoDup (firstn n l).
Proof.
  intros H. rewrite <- (firstn_skipn n l) in H.
  now apply NoDup_app_remove_r in H.
Qed.

Lemma in_firstn {A} (n : nat) (l : list A) (x : A) : In x (firstn n l) -> In x l.
Proof.
  intros H. rewrite <- (firstn_skipn n l). apply in_or_app. now left.
Qed.

(** Whatever the text, title, area and set order, the generated tags are at
    most five, all different, and all taken from the fixed vocabulary. *)
Theorem generate_tags_sound (U : Unicode) (ord : SetOrder)
    (text title : str) (area : option str) :
  let r := generate_tags U ord text title area in
  List.length r <= 5 /\ NoDup r /\ forall t, In t r -> In t tag_vocabulary.
Proof.
  cbv zeta. split; [apply generate_tags_at_most_five|].
  destruct (tag_set_ok U text title area) as [Hnd Hv].
  pose proof (arrange_perm ord (tag_set U text title area)) as Hp.
  unfold generate_tags. split.
  - apply NoDup_firstn. eapply Permutation_NoDup; [symmetry; exact Hp|exact Hnd].
  - intros t Ht. apply in_firstn in Ht. apply Hv.
    eapply Permutation_in; [exact Hp|exact Ht].
Qed.

(** ** Finding a note by its title *)

(** [_find_note_by_title] returns the first note of the store with the
    title, and nothing only when no stored note has it. *)
Theorem find_note_by_title_first (notes : Dict.t Note.t) (title : str) :
  match _find_note_by_title notes title with
  | Some (k, note) =>
    Note.title note = title /\
    exists pre post,
      notes = pre ++ (k, note) :: post /\
      forall kn, In kn pre -> Note.title (snd kn) <> title
  | None => forall kn, In kn notes -> Note.title (snd kn) <> title
  end.
Proof.
  induction notes as [|[k0 n0] notes IH]; simpl; [intros ? []|].
  destruct (str_eqb (Note.title n0) title) eqn:E.
  - apply str_eqb_eq in E. split; [exact E|].
    exists [], notes. split; [reflexivity|intros ? []].
  - assert (Hne : Note.title n0 <> title).
    { intros H. apply str_eqb_eq in H. congruence. }
    destruct (_find_note_by_title notes title) as [[k note]|].
    + destruct IH as [Ht [pre [post [-> Hpre]]]]. split; [exact Ht|].
      exists ((k0, n0) :: pre), post. split; [reflexivity|].
      intros kn [<-|Hin]; auto.
    + intros kn [<-|Hin]; auto.
Qed.

(** ** Path suffixes *)

Lemma cut_at_absent (c : char) (a : str) :
  ~ In c a -> cut_at c a = (a, None).
Proof.
  induction a as [|x a IH]; intros H; simpl; [reflexivity|].
  destruct (N.eqb_spec x c) as [->|Hxc]; [exfalso; apply H; now left|].
  rewrite IH; [reflexivity|]. intros Hin; apply H; now right.
Qed.

Lemma cut_at_first (c : char) (a b : str) :
  ~ In c a -> cut_at c (a ++ c :: b) = (a, Some b).
Proof.
  induction a as [|x a IH]; intros H; simpl.
  - now rewrite N.eqb_refl.
  - destruct (N.eqb_spec x c) as [->|Hxc]; [exfalso; apply H; now left|].
    rewrite IH; [reflexivity|]. intros Hin; apply H; now right.
Qed.

Lemma with_suffix_of_parts (dir stem ext suffix : str) :
  dir = [] \/ (exists d, dir = d ++ [47%N]) ->
  stem <> [] -> ~ In 47%N stem ->
  ext <> [] -> ~ In 46%N ext -> ~ In 47%N ext ->
  with_suffix (dir ++ stem ++ [46%N] ++ ext) suffix = dir ++ stem ++ suffix.
Proof.
  intros Hdir Hstem Hs Hext He1 He2. unfold with_suffix.
  assert (Hname : ~ In 47%N (rev ext ++ 46%N :: rev stem)).
  { rewrite in_app_iff. intros [H|[H|H]].
    - apply He2. now apply in_rev.
    - discriminate H.
    - apply Hs. now apply in_rev. }
  assert (Hcut : cut_at 46%N (rev ext ++ 46%N :: rev stem)
                 = (rev ext, Some (rev stem))).
  { apply cut_at_first. intros H. apply He1. now apply in_rev. }
  assert (Hre : rev ext <> []).
  { intros H. apply Hext. rewrite <- (rev_involutive ext), H. reflexivity. }
  assert (Hrs : rev stem <> []).
  { intros H. apply Hstem. rewrite <- (rev_involutive stem), H. reflexivity. }
  replace (rev (dir ++ stem ++ [46%N] ++ ext))
    with ((rev ext ++ 46%N :: rev stem) ++ rev dir)
    by (rewrite !rev_app_distr; simpl; now rewrite <- !app_assoc).
  destruct Hdir as [->|[d ->]].
  - simpl rev. rewrite app_nil_r, cut_at_absent by exact Hname.
    rewrite Hcut. destruct (rev ext); [contradiction|].
    destruct (rev stem) eqn:Er; [contradiction|].
    rewrite <- Er, rev_involutive. reflexivity.
  - rewrite rev_unit, cut_at_first by exact Hname.
    rewrite Hcut. destruct (rev ext); [contradiction|].
    destruct (rev stem) eqn:Er; [contradiction|].
    rewrite <- Er, !rev_involutive. reflexivity.
Qed.

(** For a note file [dir/stem.md], the backup name is [dir/stem.bak], and
    putting the [.md] suffix back on the backup name gives the note's path
    again; the two names differ. *)
Theorem backup_path_roundtrip (dir stem : str) :
  dir = [] \/ (exists d, dir = d ++ [47%N]) ->
  stem <> [] -> ~ In 47%N stem ->
  let path := dir ++ stem ++ u ".md" in
  let backup := with_suffix path (u ".bak") in
  backup = dir ++ stem ++ u ".bak" /\
  with_suffix backup (u ".md") = path /\
  backup <> path.
Proof.
  intros Hdir Hstem Hs path backup.
  assert (Hb : backup = dir ++ stem ++ u ".bak").
  { unfold backup, path.
    apply (with_suffix_of_parts dir stem (u "md") (u ".bak")); auto;
      try discriminate; intros [H|[H|[]]]; discriminate H. }
  split; [exact Hb|]. split.
  - rewrite Hb.
    apply (with_suffix_of_parts dir stem (u "bak") (u ".md")); auto;
      try discriminate; intros [H|[H|[H|[]]]]; discriminate H.
  - rewrite Hb. unfold path. intros H.
    apply app_inv_head in H. apply app_inv_head in H. discriminate H.
Qed.

(** ** Merging approved fields *)

Lemma dict_set_keys {V} (d : Dict.t V) (k : str) (v : V) :
  map fst (Dict.set d k v) =
  if Dict.mem d k then map fst d else map fst d ++ [k].
Proof.
  unfold Dict.mem. induction d as [|[k0 v0] d IH]; simpl; [reflexivity|].
  destruct (str_eqb k0 k) eqn:E; simpl; [reflexivity|].
  rewrite IH. now destruct (Dict.get d k).
Qed.

Lemma dict_mem_in {V} (d : Dict.t V) (k : str) :
  Dict.mem d k = false -> ~ In k (map fst d).
Proof.
  unfold Dict.mem. induction d as [|[k0 v0] d IH]; simpl; [auto|].
  destruct (str_eqb k0 k) eqn:E; [discriminate|].
  intros H [Hk|Hin]; [|now apply IH].
  subst k0. now rewrite str_eqb_refl in E.
Qed.

Lemma dict_set_nodup {V} (d : Dict.t V) (k : str) (v : V) :
  NoDup (map fst d) -> NoDup (map fst (Dict.set d k v)).
Proof.
  intros H. rewrite dict_set_keys. destruct (Dict.mem d k) eqn:E; [exact H|].
  apply NoDup_app; [exact H|repeat constructor; intros []|].
  intros x Hx [Hxk|[]]. subst x. now apply dict_mem_in in E.
Qed.

Lemma dict_remove_keys {V} (d : Dict.t V) (k x : str) :
  In x (map fst (Dict.remove d k)) -> In x (map fst d).
Proof.
  induction d as [|[k0 v0] d IH]; simpl; [auto|].
  destruct (str_eqb k0 k); simpl; [auto|]. intros [H|H]; auto.
Qed.

Lemma dict_remove_nodup {V} (d : Dict.t V) (k : str) :
  NoDup (map fst d) -> NoDup (map fst (Dict.remove d k)).
Proof.
  induction d as [|[k0 v0] d IH]; simpl; [auto|].
  intros H. inversion H as [|? ? Hk0 Hd]; subst.
  destruct (str_eqb k0 k); simpl; [exact Hd|].
  constructor; [|auto]. intros Hin. apply Hk0. eapply dict_remove_keys; eauto.
Qed.

Lemma dict_get_absent {V} (d : Dict.t V) (k : str) :
  ~ In k (map fst d) -> Dict.get d k = None.
Proof.
  intros H. destruct (Dict.get d k) as [v|] eqn:E; [|reflexivity].
  exfalso; apply H. apply dict_get_in in E. apply in_map_iff. now exists (k, v).
Qed.

(** [d.update(e)]: the entries of [e] win, every other key keeps its value. *)
Lemma dict_get_update {V} (d e : Dict.t V) (k : str) :
  NoDup (map fst e) ->
  Dict.get (Dict.update d e) k =
  match Dict.get e k with Some v => Some v | None => Dict.get d k end.
Proof.
  unfold Dict.update. revert d. induction e as [|[k0 v0] e IH]; intros d Hnd;
    simpl; [reflexivity|].
  inversion Hnd as [|? ? Hk0 He]; subst. rewrite IH by exact He.
  rewrite dict_get_set. destruct (str_eqb k0 k) eqn:E.
  - apply str_eqb_eq in E; subst k0. now rewrite dict_get_absent.
  - reflexivity.
Qed.

(** A successful apply merges the approved fields into the note's header
    in memory: an approved field takes the approved value, every other
    header field keeps its value, and nothing else of the note changes. *)
Theorem apply_merges_header (Y : Yaml) (config : Config) (fs fs' : FS)
    (note note' : Note.t) (changes : Dict.t value) :
  NoDup (map fst changes) ->
  _apply_metadata_changes Y config fs note changes = (true, fs', note') ->
  (forall k, Dict.get (Note.frontmatter note') k =
             match Dict.get changes k with
             | Some v => Some v
             | None => Dict.get (Note.frontmatter note) k
             end) /\
  Note.id note' = Note.id note /\ Note.title note' = Note.title note /\
  Note.content note' = Note.content note /\
  Note.file_path note' = Note.file_path note.
Proof.
  intros Hnd. unfold _apply_metadata_changes.
  destruct (if backup_original config then _ else _) as [[fs1 p]|];
    [|discriminate].
  destruct (fs_read fs1 p) as [content|]; [|discriminate].
  destruct (reparse Y content) as [[| | | | |l|fm] body]; try discriminate.
  destruct (fs_write fs1 p _) as [fs2|]; [|discriminate].
  intros [= _ <-]. split; [|repeat split].
  intros k. simpl. now apply dict_get_update.
Qed.

(** ** Ties in classification *)

Lemma best_of_first (cur : label * nat) (rest : list (label * nat)) :
  exists A B,
    cur :: rest = A ++ best_of cur rest :: B /\
    (forall x, In x A -> snd x < snd (best_of cur rest)) /\
    (forall x, In x B -> snd x <= snd (best_of cur rest)).
Proof.
  revert cur. induction rest as [|x r IH]; intros cur; simpl.
  - exists [], []. repeat split; intros ? [].
  - destruct (Nat.ltb_spec (snd cur) (snd x)) as [Hlt|Hge].
    + destruct (IH x) as [A [B [E [HA HB]]]].
      exists (cur :: A), B. split; [simpl; f_equal; exact E|]. split; [|exact HB].
      intros y [<-|Hy]; [|auto].
      destruct A as [|a A]; simpl in E; injection E as E1 E2.
      * rewrite <- E1. exact Hlt.
      * subst a. specialize (HA x (or_introl eq_refl)). lia.
    + destruct (IH cur) as [A [B [E [HA HB]]]].
      destruct A as [|a A]; simpl in E; injection E as E1 E2.
      * exists [], (x :: r). split; [simpl; now rewrite <- E1|].
        split; [intros ? []|]. rewrite <- E1.
        intros y [<-|Hy]; [exact Hge|]. rewrite E1. apply HB.
        rewrite <- E2. exact Hy.
      * subst a. exists (cur :: x :: A), B.
        split; [simpl; do 2 f_equal; exact E2|]. split; [|exact HB].
        intros y [<-|[<-|Hy]].
        -- apply HA. now left.
        -- specialize (HA cur (or_introl eq_refl)). lia.
        -- apply HA. now right.
Qed.

Lemma in_split_first (l : label) (hits : list label) :
  In l hits -> exists pre post, hits = pre ++ l :: post /\ ~ In l pre.
Proof.
  induction hits as [|h hits IH]; [intros []|].
  destruct (label_eqb h l) eqn:E.
  - apply label_eqb_eq in E; subst h. intros _. exists [], hits.
    split; [reflexivity|intros []].
  - intros [->|Hin]; [now rewrite label_eqb_refl in E|].
    destruct (IH Hin) as [pre [post [-> Hpre]]].
    exists (h :: pre), post. split; [reflexivity|].
    intros [->|H]; [now rewrite label_eqb_refl in E|auto].
Qed.

Lemma bump_fold_extends (hits : list label) (m : list (label * nat)) :
  exists extra, map fst (fold_left bump hits m) = map fst m ++ extra.
Proof.
  revert m. induction hits as [|h hits IH]; intros m; simpl.
  - exists []. now rewrite app_nil_r.
  - destruct (IH (bump m h)) as [extra E]. rewrite E, bump_keys.
    destruct (existsb (label_eqb h) (map fst m)); [now exists extra|].
    exists (h :: extra). now rewrite <- app_assoc.
Qed.

Lemma nodup_split_unique {A} (x : A) (a b a' b' : list A) :
  NoDup (a ++ x :: b) -> a ++ x :: b = a' ++ x :: b' -> a = a'.
Proof.
  revert a'. induction a as [|y a IH]; intros a' Hnd E.
  - destruct a' as [|y' a']; [reflexivity|]. simpl in E. injection E as <- E.
    inversion Hnd as [|? ? Hx _]; subst. exfalso; apply Hx.
    apply in_or_app. right. now left.
  - destruct a' as [|y' a']; simpl in E; injection E as Ey E.
    + subst y. inversion Hnd as [|? ? Hx _]; subst. exfalso; apply Hx.
      apply in_or_app. right. now left.
    + subst y'. f_equal. inversion Hnd; subst. eapply IH; eauto.
Qed.

Lemma match_count_positive (hits : list label) (l : label) :
  In l hits -> match_count hits l <> 0.
Proof.
  unfold match_count. induction hits as [|h hits IH]; [intros []|].
  simpl. intros [->|Hin]; [now rewrite label_eqb_refl|].
  destruct (label_eqb l h); [discriminate|auto].
Qed.

(** The label the classifier returns has the highest count, and among the
    labels with that count it is the one met first while scanning the
    words: every label met before its first hit has a smaller count. *)
Theorem classify_text_first_best (U : Unicode) (km : Dict.t (list label))
    (text title area : str) (subarea topic : option str) (confidence : Q) :
  classify_text U km text title = (Some area, subarea, topic, confidence) ->
  let hits :=
    label_hits km
      (split_ws (_normalize_text U (strip (title ++ [SP] ++ text)))) in
  match_count hits (area, subarea, topic) = best_score hits /\
  exists pre post,
    hits = pre ++ (area, subarea, topic) :: post /\
    forall l, In l pre -> match_count hits l < best_score hits.
Proof.
  unfold classify_text.
  destruct (_normalize_text U (strip (title ++ [SP] ++ text))) as [|c0 n0];
    [discriminate|].
  set (ws := split_ws (c0 :: n0)). intros H.
  set (hits := label_hits km ws).
  destruct (count_matches_spec km ws) as [Hnd [Hc _]]. fold hits in Hc.
  assert (HM : count_matches km ws = fold_left bump hits [])
    by (unfold count_matches; apply count_matches_fold).
  destruct (count_matches km ws) as [|m0 m] eqn:Em; [discriminate|].
  destruct (best_of_first m0 m) as [A [B [EM [HA HB]]]].
  destruct (best_of m0 m) as [[[a s] t] score]. injection H as -> -> -> _.
  set (l := (area, subarea, topic)) in *. simpl snd in HA, HB.
  assert (Hin : In (l, score) (m0 :: m))
    by (rewrite EM; apply in_or_app; right; now left).
  assert (Hscore : match_count hits l = score)
    by (rewrite <- Hc; now apply counter_entry).
  assert (Hle : forall l', match_count hits l' <= score).
  { intros l'. rewrite <- Hc.
    destruct (Nat.eq_dec (counter (m0 :: m) l') 0) as [->|Hn]; [lia|].
    apply counter_positive in Hn.
    set (n' := counter (m0 :: m) l') in *. clearbody n'.
    rewrite EM in Hn. apply in_app_iff in Hn as [Hn|[Hn|Hn]].
    - apply HA in Hn. simpl in Hn. lia.
    - injection Hn as _ Hn. lia.
    - apply HB in Hn. exact Hn. }
  assert (Hl : In l hits).
  { assert (Hk : In l (map fst (fold_left bump hits []))).
    { rewrite <- HM. apply in_map_iff. now exists (l, score). }
    apply bump_fold_keys in Hk as [[]|Hk]. exact Hk. }
  assert (Hbest : best_score hits = score).
  { apply best_score_unique; [intros; apply Hle|]. now exists l. }
  rewrite Hbest. split; [exact Hscore|].
  destruct (in_split_first l hits Hl) as [pre [post [Eh Hpre]]].
  exists pre, post. split; [exact Eh|]. intros l' Hl'.
  set (M1 := fold_left bump pre []).
  assert (Hk1 : forall x, In x (map fst M1) -> In x pre).
  { intros x Hx. apply bump_fold_keys in Hx as [[]|Hx]. exact Hx. }
  assert (HkM : exists extra, map fst (m0 :: m) = map fst M1 ++ l :: extra).
  { rewrite HM, Eh, fold_left_app. fold M1. simpl fold_left.
    destruct (bump_fold_extends post (bump M1 l)) as [extra E].
    rewrite E, bump_keys.
    destruct (existsb (label_eqb l) (map fst M1)) eqn:Ex.
    - apply existsb_exists in Ex as [x [Hx Exl]]. apply label_eqb_eq in Exl.
      subst x. exfalso. auto.
    - exists extra. now rewrite <- app_assoc. }
  destruct HkM as [extra HkM].
  assert (HA1 : map fst A = map fst M1).
  { assert (E2 : map fst (m0 :: m) = map fst A ++ l :: map fst B)
      by (rewrite EM, map_app; reflexivity).
    apply (nodup_split_unique l (map fst A) (map fst B) (map fst M1) extra).
    - exact (eq_ind _ (@NoDup label) Hnd _ E2).
    - exact (eq_trans (eq_sym E2) HkM). }
  assert (Hc1 : counter M1 l' <> 0).
  { destruct (counters_fold pre [] (NoDup_nil _)) as [_ Hc1].
    fold M1 in Hc1. rewrite Hc1. simpl. now apply match_count_positive. }
  apply counter_positive in Hc1.
  assert (Hk : In l' (map fst A)).
  { rewrite HA1. apply in_map_iff. now exists (l', counter M1 l'). }
  apply in_map_iff in Hk as [[l'' n'] [El HinA]]. simpl in El. subst l''.
  pose proof (HA _ HinA) as Hlt. simpl in Hlt.
  assert (Hn' : counter (m0 :: m) l' = n').
  { apply counter_entry; [exact Hnd|]. rewrite EM. apply in_or_app. now left. }
  rewrite <- Hc, Hn'. exact Hlt.
Qed.

(** ** Suggestions are well formed *)

Lemma classify_text_confidence_range (U : Unicode) (km : Dict.t (list label))
    (text title : str) :
  (0 <= snd (classify_text U km text title))%Q /\
  (snd (classify_text U km text title) <= 1)%Q.
Proof.
  unfold classify_text.
  destruct (_normalize_text U (strip (title ++ [SP] ++ text)));
    [split; discriminate|].
  destruct (count_matches km _) as [|m0 m]; [split; discriminate|].
  destruct (best_of m0 m) as [[[a sub] t] score]. simpl.
  apply confidence_of_bounds.
Qed.

(** Every suggestion of [analyze_note] names its note, has a confidence in
    [0, 1], at most five tags, a relevance in [1, 5] (none only for a note
    with complete metadata) and at most [max(1, conexoes_max)]
    connections; without an area the relevance is 1. *)
Theorem analyze_note_well_formed (U : Unicode) (ord : SetOrder)
    (config : Config) (tax : taxonomy) (notes : Dict.t Note.t)
    (note : Note.t) :
  let s := analyze_note U ord config tax notes note in
  Suggestion.note_id s = Note.id note /\
  (0 <= Suggestion.confidence s)%Q /\ (Suggestion.confidence s <= 1)%Q /\
  List.length (Suggestion.tags s) <= 5 /\
  match Suggestion.relevancia_cacd s with
  | Some r => (1 <= r <= 5)%Z /\ (Suggestion.area s = None -> r = 1%Z)
  | None => _has_complete_metadata note = true
  end /\
  (Z.of_nat (List.length (Suggestion.conexoes s))
   <= Z.max 1 (conexoes_max config))%Z.
Proof.
  cbv zeta. unfold analyze_note.
  destruct (_has_complete_metadata note) eqn:Hc.
  - simpl. repeat split; try discriminate; lia.
  - pose proof (classify_text_confidence_range U (keyword_map U tax)
                  (Note.content note) (Note.title note)) as [H0 H1].
    destruct (classify_text U (keyword_map U tax) (Note.content note)
                (Note.title note)) as [[[area subarea] topico] confidence].
    simpl in *. split; [reflexivity|]. split; [exact H0|]. split; [exact H1|].
    split; [apply generate_tags_at_most_five|]. split.
    + split.
      * unfold _calculate_relevancia_cacd.
        destruct (area_missing area || _); lia.
      * intros ->. reflexivity.
    + rewrite suggest_connections_spec, length_firstn. lia.
Qed.

(** ** Scanning the vault *)

(** A store as [scan_vault] builds it: one entry per key, each note stored
    under its own id. *)
Definition store_wf (notes : Dict.t Note.t) : Prop :=
  NoDup (map fst notes) /\ forall k n, In (k, n) notes -> Note.id n = k.

Lemma dict_set_in {V} (d : Dict.t V) (k k' : str) (v v' : V) :
  In (k', v') (Dict.set d k v) -> (k', v') = (k, v) \/ In (k', v') d.
Proof.
  induction d as [|[k0 v0] d IH]; simpl.
  - intros [H|[]]. left. now symmetry.
  - destruct (str_eqb k0 k) eqn:E; simpl.
    + apply str_eqb_eq in E; subst k0. intros [H|H]; [left; now symmetry|auto].
    + intros [H|H]; [auto|]. destruct (IH H); auto.
Qed.

Lemma startswith_prefix (a s : str) :
  startswith a s = true -> s = a ++ skipn (List.length a) s.
Proof.
  revert s. induction a as [|x a IH]; intros s; simpl; [reflexivity|].
  destruct s as [|y s]; [discriminate|].
  rewrite andb_true_iff, N.eqb_eq. intros [-> H]. simpl. f_equal. auto.
Qed.

Section LoadFacts.
Variable U : Unicode.
Variable Y : Yaml.
Variable vault_path : str.

(** What a loaded note records about its file. *)
Lemma load_note_loaded (fs : FS) (file_path : str) (note : Note.t) :
  _load_note Y vault_path fs file_path = Loaded note ->
  Note.file_path note = file_path /\
  file_path = vault_path ++ [47%N] ++ Note.id note /\
  exists content body,
    fs_read fs file_path = Some content /\
    reparse Y content = (VDict (Note.frontmatter note), body).
Proof.
  unfold _load_note, relative_to.
  destruct (fs_read fs file_path) as [content|]; [|discriminate].
  intros H.
  enough (Hgoal : Note.file_path note = file_path /\
                  file_path = vault_path ++ [47%N] ++ Note.id note /\
                  exists body,
                    reparse Y content = (VDict (Note.frontmatter note), body)).
  { destruct Hgoal as [H1 [H2 [body H3]]]. repeat split; auto.
    now exists content, body. }
  revert H. unfold reparse.
  destruct (startswith (vault_path ++ [47%N]) file_path) eqn:Ep.
  2:{ destruct (if startswith (u "---") content then _ else _); discriminate. }
  apply startswith_prefix in Ep. rewrite length_app, <- app_assoc in Ep.
  simpl in Ep.
  assert (Hfin : forall (fm : Dict.t value) (c : str) (n : Note.t),
    match Dict.get fm (u "title") with
    | Some (VStr title) =>
      Loaded {| Note.id := skipn (List.length vault_path + 1) file_path;
                Note.title := title; Note.content := c;
                Note.frontmatter := fm; Note.file_path := file_path |}
    | Some v => NonTextTitle v
    | None =>
      Loaded {| Note.id := skipn (List.length vault_path + 1) file_path;
                Note.title := path_stem file_path; Note.content := c;
                Note.frontmatter := fm; Note.file_path := file_path |}
    end = Loaded n ->
    Note.file_path n = file_path /\
    file_path = vault_path ++ [47%N] ++ Note.id n /\ Note.frontmatter n = fm).
  { intros fm c n H.
    destruct (Dict.get fm (u "title")) as [[| | | |t| |]|];
      try discriminate; injection H as <-; simpl;
      (split; [reflexivity|split; [exact Ep|reflexivity]]). }
  destruct (startswith (u "---") content).
  - destruct (split_sep (u "---") (Some 2) content)
      as [|p0 [|header [|body rest]]].
    1-3: intros H; apply Hfin in H as [H1 [H2 Hfm]]; rewrite Hfm;
         repeat split; auto; now exists content.
    destruct (safe_load Y header) as [v|].
    + destruct (truthy v).
      * destruct v as [| | | | | |fm]; try discriminate.
        intros H; apply Hfin in H as [H1 [H2 Hfm]]. rewrite Hfm.
        repeat split; auto. now exists body.
      * intros H; apply Hfin in H as [H1 [H2 Hfm]]. rewrite Hfm.
        repeat split; auto. now exists body.
    + intros H; apply Hfin in H as [H1 [H2 Hfm]]. rewrite Hfm.
      repeat split; auto. now exists body.
  - intros H; apply Hfin in H as [H1 [H2 Hfm]]. rewrite Hfm.
    repeat split; auto. now exists content.
Qed.

Lemma scan_files_wf (fs : FS) (markdown_files : list str)
    (notes0 notes : Dict.t Note.t) :
  store_wf notes0 ->
  scan_files U Y vault_path fs markdown_files notes0 = Some notes ->
  store_wf notes /\
  forall k n, In (k, n) notes ->
    In (k, n) notes0 \/
    exists file_path,
      In file_path markdown_files /\ skipped U file_path = false /\
      _load_note Y vault_path fs file_path = Loaded n.
Proof.
  revert notes0. induction markdown_files as [|p rest IH]; intros notes0 Hwf;
    simpl.
  - intros [= <-]. split; [exact Hwf|auto].
  - destruct (skipped U p) eqn:Es.
    + intros H. destruct (IH _ Hwf H) as [H1 H2]. split; [exact H1|].
      intros k n Hin. destruct (H2 k n Hin) as [?|[fp [? [? ?]]]]; [auto|].
      right. exists fp. auto.
    + destruct (_load_note Y vault_path fs p) as [note| |] eqn:El;
        [|discriminate|].
      * intros H.
        assert (Hwf' : store_wf (Dict.set notes0 (Note.id note) note)).
        { destruct Hwf as [Hnd Hid]. split; [now apply dict_set_nodup|].
          intros k n Hin. apply dict_set_in in Hin as [[= -> ->]|Hin]; auto. }
        destruct (IH _ Hwf' H) as [H1 H2]. split; [exact H1|].
        intros k n Hin. destruct (H2 k n Hin) as [Hold|[fp [? [? ?]]]].
        -- apply dict_set_in in Hold as [[= -> ->]|Hold]; [|auto].
           right. exists p. auto.
        -- right. exists fp. auto.
      * intros H. destruct (IH _ Hwf H) as [H1 H2]. split; [exact H1|].
        intros k n Hin. destruct (H2 k n Hin) as [?|[fp [? [? ?]]]]; [auto|].
        right. exists fp. auto.
Qed.

End LoadFacts.


(** ** Generating the review file *)

(** When every stored note has complete metadata there is nothing to
    review: the call returns [False] and writes no file. *)
Theorem generate_feedback_file_all_complete (U : Unicode) (ord : SetOrder)
    (config : Config) (tax : taxonomy) (vault_path now : str)
    (notes : Dict.t Note.t) (fs : FS) :
  (forall k n, In (k, n) notes -> _has_complete_metadata n = true) ->
  generate_feedback_file U ord config tax vault_path now notes fs = (false, fs).
Proof.
  intros Hall. unfold generate_feedback_file.
  assert (E : suggestions_to_review U ord config tax notes = []).
  { unfold suggestions_to_review.
    assert (H : forall items : Dict.t Note.t,
              (forall k n, In (k, n) items ->
                           _has_complete_metadata n = true) ->
              flat_map (fun kn : str * Note.t =>
                          review_entry U ord config tax notes (snd kn))
                items = []).
    { induction items as [|[k n] items IH]; intros Hi; simpl; [reflexivity|].
      unfold review_entry at 1. simpl.
      rewrite (Hi k n) by now left. simpl. apply IH.
      intros k' n' Hin. apply (Hi k' n'). now right. }
    now apply H. }
  now rewrite E.
Qed.

Lemma sections_text_ok (notes : Dict.t Note.t) (ss : list Suggestion.t) :
  (forall s, In s ss -> exists n, Dict.get notes (Suggestion.note_id s) = Some n) ->
  snd (sections_text notes ss) = true.
Proof.
  induction ss as [|s ss IH]; intros H; simpl; [reflexivity|].
  destruct (H s (or_introl eq_refl)) as [n ->].
  destruct (sections_text notes ss) as [rest ok] eqn:E. simpl in *.
  apply IH. intros s' Hs'. apply H. now right.
Qed.


(** ** Processing consumes the review file *)

Section ProcessFacts.
Variable U : Unicode.
Variable Y : Yaml.
Variable config : Config.
Variable vault_path : str.

Definition fs_wf (fs : FS) : Prop := NoDup (map fst (files fs)).

Lemma fs_write_wf (fs fs' : FS) (p c : str) :
  fs_wf fs -> fs_write fs p c = Some fs' -> fs_wf fs'.
Proof.
  unfold fs_wf, fs_write. intros H.
  destruct (existsb (str_eqb p) (locked fs)); [discriminate|].
  intros [= <-]. now apply dict_set_nodup.
Qed.

Lemma fs_rename_wf (fs fs' : FS) (src dst : str) :
  fs_wf fs -> fs_rename fs src dst = Some fs' -> fs_wf fs'.
Proof.
  unfold fs_wf, fs_rename. intros H.
  destruct (Dict.get (files fs) src); [|discriminate].
  intros [= <-]. cbn [files]. now apply dict_set_nodup, dict_remove_nodup.
Qed.

Lemma apply_metadata_changes_wf (fs : FS) (note : Note.t)
    (changes : Dict.t value) :
  fs_wf fs ->
  fs_wf (snd (fst (_apply_metadata_changes Y config fs note changes))).
Proof.
  intros Hwf. unfold _apply_metadata_changes.
  assert (H1 : forall o : option (FS * str),
             (forall fs1 p, o = Some (fs1, p) -> fs_wf fs1) ->
             fs_wf (snd (fst
               match o with
               | Some (fs1, file_path) =>
                 match fs_read fs1 file_path with
                 | Some content =>
                   let (v, main_content) := reparse Y content in
                   match v with
                   | VDict frontmatter =>
                     match fs_write fs1 file_path
                             (rebuild Y (Dict.update frontmatter changes)
                                main_content) with
                     | Some fs2 =>
                       (true, fs2,
                        Note.with_frontmatter note
                          (Dict.update (Note.frontmatter note) changes))
                     | None => (false, fs1, note)
                     end
                   | _ => (false, fs1, note)
                   end
                 | None => (false, fs1, note)
                 end
               | None => (false, fs, note)
               end))).
  { intros [[fs1 p]|] Ho; [|exact Hwf].
    specialize (Ho fs1 p eq_refl).
    destruct (fs_read fs1 p) as [content|]; [|exact Ho].
    destruct (reparse Y content) as [[| | | | |l|fm] body]; try exact Ho.
    destruct (fs_write fs1 p _) as [fs2|] eqn:Ew; [|exact Ho].
    simpl. eapply fs_write_wf; eauto. }
  apply H1. intros fs1 p.
  destruct (backup_original config); [|now intros [= <- _]].
  destruct (negb (fs_exists fs _)); [|now intros [= <- _]].
  destruct (fs_rename fs _ _) as [fs'|] eqn:Er; [|discriminate].
  intros [= <- _]. eapply fs_rename_wf; eauto.
Qed.

Lemma apply_all_wf (approved : approvals) (fs : FS) (notes : Dict.t Note.t)
    (n : nat) :
  fs_wf fs -> fs_wf (fst (fst (apply_all Y config approved fs notes n))).
Proof.
  revert fs notes n. induction approved as [|[title changes] rest IH];
    intros fs notes n Hwf; simpl; [exact Hwf|].
  destruct (_find_note_by_title notes title) as [[k note]|]; [|now apply IH].
  pose proof (apply_metadata_changes_wf fs note changes Hwf) as H.
  destruct (_apply_metadata_changes Y config fs note changes) as [[ok fs'] note'].
  now apply IH.
Qed.

(** A successful [process_feedback_file] leaves no file at the review path,
    so running it again at once returns [False] and changes nothing. *)
Theorem process_feedback_file_consumes (fs fs' : FS)
    (notes notes' : Dict.t Note.t) :
  let review := feedback_path config vault_path in
  fs_wf fs ->
  with_suffix review (u ".processed.md") <> review ->
  process_feedback_file U Y config vault_path fs notes = (true, fs', notes') ->
  fs_read fs' review = None /\
  process_feedback_file U Y config vault_path fs' notes' = (false, fs', notes').
Proof.
  intros review Hwf Hne Hp.
  assert (Hgone : fs_read fs' review = None).
  { revert Hp. unfold process_feedback_file. fold review.
    destruct (fs_read fs review) as [content|]; [|discriminate].
    destruct (parse_feedback U content) as [approved|]; [|discriminate].
    pose proof (apply_all_wf approved fs notes 0 Hwf) as Hwf1.
    destruct (apply_all Y config approved fs notes 0) as [[fs1 notes1] cnt].
    simpl in Hwf1. unfold fs_rename.
    destruct (Dict.get (files fs1) review) as [c|]; [|discriminate].
    intros [= <- _]. unfold fs_read. cbn [files]. rewrite dict_get_set.
    destruct (str_eqb (with_suffix review (u ".processed.md")) review) eqn:E.
    - apply str_eqb_eq in E. contradiction.
    - now apply dict_get_remove_same. }
  split; [exact Hgone|].
  unfold process_feedback_file. fold review. now rewrite Hgone.
Qed.

End ProcessFacts.

(** ** Applying to loaded notes *)

Lemma apply_without_rename (Y : Yaml) (config : Config) (fs : FS)
    (note : Note.t) (changes : Dict.t value) :
  no_rename config fs note ->
  _apply_metadata_changes Y config fs note changes =
  match fs_read fs (Note.file_path note) with
  | Some content =>
    match reparse Y content with
    | (VDict frontmatter, main_content) =>
      match fs_write fs (Note.file_path note)
              (rebuild Y (Dict.update frontmatter changes) main_content) with
      | Some fs2 =>
        (true, fs2,
         Note.with_frontmatter note (Dict.update (Note.frontmatter note) changes))
      | None => (false, fs, note)
      end
    | _ => (false, fs, note)
    end
  | None => (false, fs, note)
  end.
Proof.
  intros Hno. unfold _apply_metadata_changes.
  destruct Hno as [-> | ->]; [reflexivity|].
  now destruct (backup_original config).
Qed.

(** A note loaded from a file that has not changed since, and that is
    writable, is applied successfully when no backup rename is due: the
    header re-read from the file is the loaded one, so the file ends up
    with the same merged header as the note in memory. *)
Theorem loaded_note_applies (Y : Yaml) (config : Config) (vault_path : str)
    (fs : FS) (file_path : str) (note : Note.t) (changes : Dict.t value) :
  _load_note Y vault_path fs file_path = Loaded note ->
  no_rename config fs note ->
  existsb (str_eqb file_path) (locked fs) = false ->
  exists fs' body,
    _apply_metadata_changes Y config fs note changes
    = (true, fs',
       Note.with_frontmatter note (Dict.update (Note.frontmatter note) changes))
    /\ fs_read fs' file_path
       = Some (rebuild Y (Dict.update (Note.frontmatter note) changes) body).
Proof.
  intros Hload Hno Hfree.
  destruct (load_note_loaded Y vault_path fs file_path note Hload)
    as [Hp [_ [content [body [Hread Hparse]]]]].
  rewrite apply_without_rename by exact Hno.
  rewrite Hp, Hread, Hparse. unfold fs_write. rewrite Hfree.
  eexists. exists body. split; [reflexivity|].
  unfold fs_read. cbn [files]. rewrite dict_get_set. now rewrite str_eqb_refl.
Qed.

(** With backup enabled and no backup file yet, nothing is ever merged:
    the first call moves the note file to the backup name and fails, and
    any later call finds the backup, skips it, fails to read the note file
    and changes nothing more. *)
Theorem backup_enabled_never_merges (Y : Yaml) (config : Config) (fs : FS)
    (note : Note.t) (changes changes' : Dict.t value)
    (dir stem original : str) :
  let path := dir ++ stem ++ u ".md" in
  backup_original config = true ->
  fs_wf fs ->
  Note.file_path note = path ->
  dir = [] \/ (exists d, dir = d ++ [47%N]) ->
  stem <> [] -> ~ In 47%N stem ->
  fs_read fs path = Some original ->
  fs_exists fs (dir ++ stem ++ u ".bak") = false ->
  exists fs1,
    _apply_metadata_changes Y config fs note changes = (false, fs1, note) /\
    fs_read fs1 path = None /\
    fs_read fs1 (dir ++ stem ++ u ".bak") = Some original /\
    _apply_metadata_changes Y config fs1 note changes' = (false, fs1, note).
Proof.
  intros path Hb Hwf Hpath Hdir Hstem Hs Hread Hnobak.
  set (backup := dir ++ stem ++ u ".bak") in *.
  assert (Hbk : with_suffix path (u ".bak") = backup).
  { apply (with_suffix_of_parts dir stem (u "md") (u ".bak")); auto;
      try discriminate; intros [H|[H|[]]]; discriminate H. }
  assert (Hback : with_suffix backup (u ".md") = path).
  { apply (with_suffix_of_parts dir stem (u "bak") (u ".md")); auto;
      try discriminate; intros [H|[H|[H|[]]]]; discriminate H. }
  assert (Hne : backup <> path).
  { intros E. unfold fs_exists, Dict.mem in Hnobak. unfold fs_read in Hread.
    rewrite E, Hread in Hnobak. discriminate. }
  set (fs1 := {| files := Dict.set (Dict.remove (files fs) path) backup original;
                 locked := locked fs |}).
  assert (Hgone : fs_read fs1 path = None).
  { unfold fs_read, fs1. cbn [files]. rewrite dict_get_set.
    destruct (str_eqb backup path) eqn:E.
    - apply str_eqb_eq in E. contradiction.
    - now apply dict_get_remove_same. }
  assert (Hkept : fs_read fs1 backup = Some original).
  { unfold fs_read, fs1. cbn [files]. rewrite dict_get_set.
    now rewrite str_eqb_refl. }
  exists fs1. split; [|split; [exact Hgone|split; [exact Hkept|]]].
  - unfold _apply_metadata_changes. rewrite Hpath, Hb, Hbk, Hnobak.
    simpl negb. cbv iota. unfold fs_rename. unfold fs_read in Hread.
    rewrite Hread, Hback. fold fs1. now rewrite Hgone.
  - rewrite apply_without_rename.
    + rewrite Hpath, Hgone. reflexivity.
    + right. rewrite Hpath, Hbk. unfold fs_exists, Dict.mem.
      unfold fs_read in Hkept. now rewrite Hkept.
Qed.

(** ** Reading a field line back *)

Lemma lazy_label_found (label value g1_rev : str) :
  (forall c, In c label -> c <> 58%N /\ c <> NL) ->
  rev g1_rev ++ label <> [] ->
  value <> [] -> ~ In NL value ->
  lazy_label g1_rev (label ++ u ":** " ++ value)
  = Some (rev g1_rev ++ label, value).
Proof.
  intros Hl Hne Hv Hnl.
  change (u ":** " ++ value) with (58%N :: 42%N :: 42%N :: 32%N :: value).
  assert (Hu : upto_newline value = value)
    by (unfold upto_newline; now rewrite cut_at_absent).
  revert g1_rev Hne.
  induction label as [|c label IH]; intros g1_rev Hne.
  - rewrite app_nil_r in *. cbn [app lazy_label skipn].
    change (startswith (u ":** ") (58%N :: 42%N :: 42%N :: 32%N :: value))
      with true.
    rewrite Hu.
    destruct g1_rev as [|g g1]; [now contradiction Hne|].
    destruct value as [|v value]; [contradiction|]. reflexivity.
  - destruct (Hl c (or_introl eq_refl)) as [Hc1 Hc2].
    cbn [app lazy_label].
    set (rest := label ++ 58%N :: 42%N :: 42%N :: 32%N :: value) in *.
    assert (Hs : startswith (u ":** ") (c :: rest) = false).
    { change (u ":** ") with [58%N; 42%N; 42%N; 32%N]. cbn [startswith].
      destruct (N.eqb_spec 58 c) as [E|E]; [|reflexivity].
      exfalso. now apply Hc1. }
    rewrite Hs, andb_false_r. cbn [andb].
    apply N.eqb_neq in Hc2. rewrite Hc2.
    rewrite IH.
    + simpl rev. now rewrite <- app_assoc.
    + intros x Hx. apply Hl. now right.
    + simpl rev. rewrite <- app_assoc. simpl. now destruct (rev g1_rev).
Qed.

Lemma field_search_skip (pre rest : str) :
  (forall c, In c pre -> c <> 42%N) ->
  field_search (pre ++ rest) = field_search rest.
Proof.
  intros Hp. induction pre as [|c pre IH]; [reflexivity|].
  simpl app. cbn [field_search].
  replace (startswith (u "**") (c :: pre ++ rest)) with false.
  - apply IH. intros x Hx. apply Hp. now right.
  - symmetry. change (u "**") with [42%N; 42%N]. cbn [startswith].
    destruct (N.eqb_spec 42 c) as [E|E]; [|reflexivity].
    exfalso. apply (Hp c); [now left|now symmetry].
Qed.

Lemma field_search_stars (rest : str) (r : str * str) :
  lazy_label [] rest = Some r ->
  field_search (42%N :: 42%N :: rest) = Some r.
Proof.
  intros H. cbn [field_search].
  change (startswith (u "**") (42%N :: 42%N :: rest)) with true.
  cbn [skipn]. now rewrite H.
Qed.

Lemma field_search_line (label value : str) :
  label <> [] -> (forall c, In c label -> c <> 58%N /\ c <> NL) ->
  value <> [] -> ~ In NL value ->
  field_search (u "- **" ++ label ++ u ":** " ++ value) = Some (label, value).
Proof.
  intros Hne Hl Hv Hnl.
  change (u "- **" ++ label ++ u ":** " ++ value)
    with ([45%N; 32%N] ++ 42%N :: 42%N :: label ++ u ":** " ++ value).
  rewrite field_search_skip
    by (intros c [<-|[<-|[]]]; discriminate).
  apply field_search_stars.
  apply (lazy_label_found label value []); auto.
Qed.

(** The line that [generate_feedback_file] writes for a field is read back
    by the pattern of [process_feedback_file] as exactly its label and its
    value, for any label without a colon and any one-line value. *)
Theorem field_line_read_back (label value : str) :
  label <> [] -> (forall c, In c label -> c <> 58%N /\ c <> NL) ->
  value <> [] -> ~ In NL value ->
  firstn (List.length (u "- **" ++ label ++ u ":** " ++ value))
    (field_block label value)
  = u "- **" ++ label ++ u ":** " ++ value /\
  field_search (u "- **" ++ label ++ u ":** " ++ value) = Some (label, value).
Proof.
  intros Hne Hl Hv Hnl. split.
  - unfold field_block. rewrite !app_assoc.
    rewrite <- (app_assoc _ [NL]), <- (app_assoc _ ([NL] ++ decision_unchecked)).
    rewrite firstn_app, Nat.sub_diag, firstn_all. simpl firstn.
    now rewrite app_nil_r.
  - now apply field_search_line.
Qed.

(** ** Reading approved lines *)

(** The labels [generate_feedback_file] writes, in the order of the
    entries of [field_mapping] that they are meant to reach. *)
Definition field_labels : list str :=
  [u "Área"; u "Subárea"; u "Tópico"; u "Tags"; u "Relevância CACD";
   u "Conexões"].

(** [str.lower] takes each written label to its key in [field_mapping]. *)
Definition lowers_labels (U : Unicode) : Prop :=
  map (lower U) field_labels = map fst field_mapping.

Definition label_char (c : char) : bool := negb (N.eqb c 58) && negb (N.eqb c NL).

Lemma label_chars (label : str) :
  forallb label_char label = true ->
  forall c, In c label -> c <> 58%N /\ c <> NL.
Proof.
  intros H c Hc. rewrite forallb_forall in H. specialize (H c Hc).
  unfold label_char in H. apply andb_true_iff in H as [H1 H2].
  apply negb_true_iff in H1, H2. now rewrite N.eqb_neq in H1, H2.
Qed.

(** One approval line, for a field line written in the generator's
    format. *)
Lemma parse_line_approved (U : Unicode) (lines : list str) (title : str)
    (acc : approvals) (label field text : str) (v : value) :
  title <> [] -> label <> [] -> forallb label_char label = true ->
  text <> [] -> ~ In NL text ->
  prev_line_of decision_checked lines = u "- **" ++ label ++ u ":** " ++ text ->
  Dict.get field_mapping (lower U label) = Some field ->
  convert_field field text = Some v ->
  parse_line U lines decision_checked (Some title, acc)
  = Some (Some title, approve acc title field v).
Proof.
  intros Ht Hl Hlc Hv Hnl Hprev Hmap Hconv. unfold parse_line.
  change (startswith (u "## Nota:") decision_checked) with false.
  change (contains (u "- Decisão: [x]") decision_checked) with true.
  cbv iota. destruct title as [|t0 title]; [contradiction|].
  rewrite Hprev.
  change (contains (u "**") (u "- **" ++ label ++ u ":** " ++ text)) with true.
  cbv iota.
  rewrite (field_search_line label text Hl (label_chars label Hlc) Hv Hnl).
  now rewrite Hmap, Hconv.
Qed.

(** *** Text fields *)

(** An approved area, subarea or topic line stores the written text under
    the field's header key. *)
Theorem approved_text_field (U : Unicode) (lines : list str) (title : str)
    (acc : approvals) (label field text : str) :
  lowers_labels U ->
  In (label, field)
     [(u "Área", u "area"); (u "Subárea", u "subarea");
      (u "Tópico", u "topico")] ->
  title <> [] -> text <> [] -> ~ In NL text ->
  prev_line_of decision_checked lines = u "- **" ++ label ++ u ":** " ++ text ->
  parse_line U lines decision_checked (Some title, acc)
  = Some (Some title, approve acc title field (VStr text)).
Proof.
  intros HU Hin Ht Hv Hnl Hprev.
  unfold lowers_labels, field_labels in HU. cbn [map] in HU.
  injection HU as H1 H2 H3 _ _ _.
  destruct Hin as [E|[E|[E|[]]]]; injection E as <- <-.
  - apply (parse_line_approved U lines title acc (u "Área") (u "area") text);
      auto; [discriminate|now rewrite H1].
  - apply (parse_line_approved U lines title acc (u "Subárea") (u "subarea")
             text); auto; [discriminate|now rewrite H2].
  - apply (parse_line_approved U lines title acc (u "Tópico") (u "topico")
             text); auto; [discriminate|now rewrite H3].
Qed.

(** *** Lists *)

Lemma split_char_nonempty (c : char) (s : str) : split_char c s <> [].
Proof.
  destruct s as [|x r]; simpl; [discriminate|].
  destruct (split_char c r); [discriminate|].
  destruct (N.eqb x c); discriminate.
Qed.

Lemma split_char_other (c x : char) (r : str) :
  x <> c ->
  split_char c (x :: r)
  = (x :: hd [] (split_char c r)) :: tl (split_char c r).
Proof.
  intros H. simpl. pose proof (split_char_nonempty c r) as Hn.
  destruct (split_char c r); [contradiction|].
  apply N.eqb_neq in H. now rewrite H.
Qed.

Lemma split_char_nosep (c : char) (a : str) :
  ~ In c a -> split_char c a = [a].
Proof.
  induction a as [|x a IH]; intros H; [reflexivity|].
  rewrite split_char_other by (intros E; apply H; now left).
  rewrite IH by (intros Hin; apply H; now right). reflexivity.
Qed.

Lemma split_char_app (c : char) (a b : str) :
  ~ In c a -> split_char c (a ++ c :: b) = a :: split_char c b.
Proof.
  induction a as [|x a IH]; intros H.
  - simpl. pose proof (split_char_nonempty c b) as Hn.
    destruct (split_char c b); [contradiction|]. now rewrite N.eqb_refl.
  - simpl app. rewrite split_char_other by (intros E; apply H; now left).
    rewrite IH by (intros Hin; apply H; now right). reflexivity.
Qed.

(** An item of a comma-separated list that is read back as written. *)
Definition list_item (t : str) : Prop :=
  t <> [] /\ ~ In 44%N t /\ ~ In NL t /\ strip t = t.

Lemma strip_split_join (ts : list str) :
  ts <> [] -> Forall list_item ts ->
  map strip (split_char 44%N (join (u ", ") ts)) = ts.
Proof.
  induction ts as [|t ts IH]; intros Hne Hall; [contradiction|].
  inversion Hall as [|? ? [_ [Hc [_ Hs]]] Hall']; subst.
  destruct ts as [|t' ts].
  - simpl join. rewrite split_char_nosep by exact Hc. simpl. now rewrite Hs.
  - change (join (u ", ") (t :: t' :: ts))
      with (t ++ 44%N :: 32%N :: join (u ", ") (t' :: ts)).
    rewrite split_char_app by exact Hc.
    rewrite split_char_other by discriminate.
    specialize (IH ltac:(discriminate) Hall').
    pose proof (split_char_nonempty 44%N (join (u ", ") (t' :: ts))) as Hn.
    destruct (split_char 44%N (join (u ", ") (t' :: ts))) as [|w ws];
      [contradiction|].
    cbn [map hd tl] in *. rewrite Hs.
    change (strip (32%N :: w)) with (strip w). now rewrite IH.
Qed.

Lemma join_items (ts : list str) :
  ts <> [] -> Forall list_item ts ->
  join (u ", ") ts <> [] /\ ~ In NL (join (u ", ") ts).
Proof.
  induction ts as [|t ts IH]; intros Hne Hall; [contradiction|].
  inversion Hall as [|? ? [Ht [_ [Hn _]]] Hall']; subst.
  destruct ts as [|t' ts].
  - simpl. auto.
  - change (join (u ", ") (t :: t' :: ts))
      with (t ++ 44%N :: 32%N :: join (u ", ") (t' :: ts)).
    destruct (IH ltac:(discriminate) Hall') as [_ IH2]. split.
    + destruct t; [contradiction|discriminate].
    + rewrite in_app_iff. intros [H|[H|[H|H]]]; auto; discriminate H.
Qed.

Lemma parse_line_list (U : Unicode) (lines : list str) (title : str)
    (acc : approvals) (label field : str) (ts : list str) :
  (field = u "tags" \/ field = u "conexoes") ->
  title <> [] -> label <> [] -> forallb label_char label = true ->
  Dict.get field_mapping (lower U label) = Some field ->
  ts <> [] -> Forall list_item ts ->
  prev_line_of decision_checked lines
  = u "- **" ++ label ++ u ":** " ++ join (u ", ") ts ->
  parse_line U lines decision_checked (Some title, acc)
  = Some (Some title, approve acc title field (VList (map VStr ts))).
Proof.
  intros Hf Ht Hl Hlc Hmap Hne Hall Hprev.
  destruct (join_items ts Hne Hall) as [Hj1 Hj2].
  apply (parse_line_approved U lines title acc label field
           (join (u ", ") ts)); auto.
  assert (Hc : comma_list (join (u ", ") ts) = VList (map VStr ts)).
  { unfold comma_list. rewrite <- (map_map strip VStr).
    now rewrite strip_split_join. }
  destruct Hf as [-> | ->]; unfold convert_field; simpl; now rewrite Hc.
Qed.

Definition list_itemb (t : str) : bool :=
  match t with [] => false | _ => true end
  && negb (existsb (N.eqb 44%N) t) && negb (existsb (N.eqb NL) t)
  && str_eqb (strip t) t.

Lemma not_in_existsb (c : char) (t : str) :
  existsb (N.eqb c) t = false -> ~ In c t.
Proof.
  intros H Hin.
  assert (existsb (N.eqb c) t = true); [|congruence].
  apply existsb_exists. exists c. split; [exact Hin|apply N.eqb_refl].
Qed.

Lemma list_itemb_ok (t : str) : list_itemb t = true -> list_item t.
Proof.
  unfold list_itemb. rewrite !andb_true_iff, !negb_true_iff.
  intros [[[H1 H2] H3] H4]. repeat split.
  - destruct t; [discriminate|discriminate].
  - now apply not_in_existsb.
  - now apply not_in_existsb.
  - now apply str_eqb_eq.
Qed.

Lemma tag_vocabulary_items : Forall list_item tag_vocabulary.
Proof.
  apply Forall_forall. intros t Ht. apply list_itemb_ok. revert t Ht.
  apply forallb_forall. vm_compute. reflexivity.
Qed.

Lemma generate_tags_vocabulary (U : Unicode) (ord : SetOrder)
    (text title : str) (area : option str) (t : str) :
  In t (generate_tags U ord text title area) -> In t tag_vocabulary.
Proof.
  intros Ht. unfold generate_tags in Ht. apply in_firstn in Ht.
  destruct (tag_set_ok U text title area) as [_ Hv]. apply Hv.
  eapply Permutation_in; [exact (arrange_perm ord _)|exact Ht].
Qed.

(** An approved tags line stores, under [tags], exactly the tag list that
    [generate_tags] produced. *)
Theorem approved_tags (U : Unicode) (ord : SetOrder) (lines : list str)
    (title : str) (acc : approvals) (text note_title : str)
    (area : option str) :
  let tags := generate_tags U ord text note_title area in
  lowers_labels U -> title <> [] -> tags <> [] ->
  prev_line_of decision_checked lines
  = u "- **Tags:** " ++ join (u ", ") tags ->
  parse_line U lines decision_checked (Some title, acc)
  = Some (Some title, approve acc title (u "tags") (VList (map VStr tags))).
Proof.
  intros tags HU Ht Hne Hprev.
  unfold lowers_labels, field_labels in HU. cbn [map] in HU.
  injection HU as _ _ _ H4 _ _.
  apply (parse_line_list U lines title acc (u "Tags") (u "tags") tags); auto.
  - discriminate.
  - now rewrite H4.
  - apply Forall_forall. intros t Hin.
    pose proof tag_vocabulary_items as Hv. rewrite Forall_forall in Hv.
    apply Hv. eapply generate_tags_vocabulary; exact Hin.
Qed.

(** An approved connections line stores, under [conexoes], the list of
    titles as written when no title is empty, contains a comma or a line
    break, or starts or ends with whitespace. *)
Theorem approved_connections (U : Unicode) (lines : list str) (title : str)
    (acc : approvals) (cs : list str) :
  lowers_labels U -> title <> [] -> cs <> [] -> Forall list_item cs ->
  prev_line_of decision_checked lines
  = u "- **Conexões:** " ++ join (u ", ") cs ->
  parse_line U lines decision_checked (Some title, acc)
  = Some (Some title, approve acc title (u "conexoes") (VList (map VStr cs))).
Proof.
  intros HU Ht Hne Hall Hprev.
  unfold lowers_labels, field_labels in HU. cbn [map] in HU.
  injection HU as _ _ _ _ _ H6.
  apply (parse_line_list U lines title acc (u "Conexões") (u "conexoes") cs);
    auto.
  - discriminate.
  - now rewrite H6.
Qed.

(** An approved relevance line stores the written relevance as an
    integer. *)
Theorem approved_relevance (U : Unicode) (lines : list str) (title : str)
    (acc : approvals) (r : Z) :
  lowers_labels U -> title <> [] -> (1 <= r <= 5)%Z ->
  prev_line_of decision_checked lines
  = u "- **Relevância CACD:** " ++ str_of_int r ++ u "/5" ->
  parse_line U lines decision_checked (Some title, acc)
  = Some (Some title, approve acc title (u "relevancia_cacd") (VInt r)).
Proof.
  intros HU Ht Hr Hprev.
  unfold lowers_labels, field_labels in HU. cbn [map] in HU.
  injection HU as _ _ _ _ H5 _.
  assert (Hc : (r = 1 \/ r = 2 \/ r = 3 \/ r = 4 \/ r = 5)%Z) by lia.
  apply (parse_line_approved U lines title acc (u "Relevância CACD")
           (u "relevancia_cacd") (str_of_int r ++ u "/5")); auto.
  - discriminate.
  - destruct Hc as [->|[->|[->|[->| ->]]]]; discriminate.
  - destruct Hc as [->|[->|[->|[->| ->]]]]; vm_compute;
      intros [H|[H|[H|[]]]]; discriminate H.
  - now rewrite H5.
  - destruct Hc as [->|[->|[->|[->| ->]]]]; reflexivity.
Qed.

(** *** Commas inside an item *)

Lemma split_char_length (c : char) (s : str) :
  List.length (split_char c s) = S (count_occ N.eq_dec s c).
Proof.
  induction s as [|x s IH]; [reflexivity|].
  simpl split_char. pose proof (split_char_nonempty c s) as Hn.
  destruct (split_char c s) as [|w ws]; [contradiction|].
  simpl count_occ. destruct (N.eq_dec x c) as [->|Hx].
  - rewrite N.eqb_refl. simpl. now rewrite <- IH.
  - apply N.eqb_neq in Hx. rewrite Hx. simpl. exact IH.
Qed.

Lemma join_commas (ts : list str) :
  ts <> [] ->
  S (count_occ N.eq_dec (join (u ", ") ts) 44%N)
  = List.length ts + count_occ N.eq_dec (List.concat ts) 44%N.
Proof.
  induction ts as [|t ts IH]; intros Hne; [contradiction|].
  destruct ts as [|t' ts].
  - simpl. now rewrite app_nil_r.
  - change (join (u ", ") (t :: t' :: ts))
      with (t ++ 44%N :: 32%N :: join (u ", ") (t' :: ts)).
    change (List.concat (t :: t' :: ts)) with (t ++ List.concat (t' :: ts)).
    rewrite !count_occ_app. specialize (IH ltac:(discriminate)).
    rewrite count_occ_cons_eq by reflexivity.
    rewrite count_occ_cons_neq by discriminate.
    cbn [List.length] in *. unfold char in *. lia.
Qed.

(** A comma inside a title breaks the round trip: the connections read
    back are more than the connections written. *)
Theorem connection_with_comma_splits (cs : list str) (c : str) :
  In c cs -> In 44%N c ->
  exists items,
    comma_list (join (u ", ") cs) = VList items /\
    List.length cs < List.length items.
Proof.
  intros Hc H44. unfold comma_list. eexists. split; [reflexivity|].
  rewrite length_map, split_char_length.
  assert (Hne : cs <> []) by (intros ->; destruct Hc).
  rewrite (join_commas cs Hne).
  assert (0 < count_occ N.eq_dec (List.concat cs) 44%N); [|lia].
  apply count_occ_In. apply in_concat. exists c. auto.
Qed.

(** ** Scenarios for the further properties *)

Lemma keyword_map_keys_witness :
  index_word Latin1.db (u "geografia") /\
  [(u "Geografia", @None str, @None str)] <> [].
Proof.
  refine (keyword_map_keys Latin1.db Vault.geo_tax (u "geografia")
            [(u "Geografia", None, None)] _).
  vm_compute. reflexivity.
Defined.

Lemma classify_text_in_taxonomy_witness :
  label_in Vault.geo_tax (u "Geografia", None, None).
Proof.
  refine (classify_text_in_taxonomy Latin1.db Vault.geo_tax (u "geografia")
            (u "geografia") (u "Geografia") None None 1%Q _).
  vm_compute. reflexivity.
Defined.

Lemma unreadable_taxonomy_witness :
  taxonomy_analyzer Latin1.db Scenario.rejecting_yaml Scenario.empty_fs
    (u "/vault/taxonomia_cacd.yaml") = Some ([], []) /\
  classify_text Latin1.db [] (u "geografia") (u "geografia")
  = (None, None, None, 0%Q).
Proof.
  exact (unreadable_taxonomy_classifies_nothing Latin1.db
           Scenario.rejecting_yaml Scenario.empty_fs
           (u "/vault/taxonomia_cacd.yaml") (u "geografia") (u "geografia")
           (or_introl eq_refl)).
Defined.

Lemma backup_path_roundtrip_witness :
  with_suffix (u "/vault/geografia.md") (u ".bak") = u "/vault/geografia.bak" /\
  with_suffix (u "/vault/geografia.bak") (u ".md") = u "/vault/geografia.md".
Proof.
  assert (H1 : u "geografia" <> []) by discriminate.
  assert (H2 : ~ In 47%N (u "geografia"))
    by (vm_compute; intuition discriminate).
  destruct (backup_path_roundtrip (u "/vault/") (u "geografia")
              (or_intror (ex_intro _ (u "/vault") eq_refl)) H1 H2)
    as [Ha [Hb _]].
  split; [exact Ha|exact Hb].
Defined.

Lemma apply_merges_header_witness :
  Dict.get
    (Note.frontmatter
       (snd (_apply_metadata_changes Scenario.rejecting_yaml _default_config
               Scenario.restored_fs Vault.geo_note
               [(u "area", VStr (u "Geografia"))])))
    (u "area")
  = Some (VStr (u "Geografia")).
Proof.
  refine (proj1
            (apply_merges_header Scenario.rejecting_yaml _default_config
               Scenario.restored_fs _ Vault.geo_note _
               [(u "area", VStr (u "Geografia"))] _ _) (u "area")).
  - repeat constructor. intros [].
  - vm_compute. reflexivity.
Defined.

Lemma classify_text_first_best_witness :
  match_count
    (label_hits (_build_keyword_map Latin1.db Vault.geo_tax)
       (split_ws
          (_normalize_text Latin1.db
             (strip (u "geografia" ++ [SP] ++ u "geografia")))))
    (u "Geografia", None, None)
  = best_score
      (label_hits (_build_keyword_map Latin1.db Vault.geo_tax)
         (split_ws
            (_normalize_text Latin1.db
               (strip (u "geografia" ++ [SP] ++ u "geografia"))))).
Proof.
  refine (proj1
            (classify_text_first_best Latin1.db
               (_build_keyword_map Latin1.db Vault.geo_tax) (u "geografia")
               (u "geografia") (u "Geografia") None None 1%Q _)).
  vm_compute. reflexivity.
Defined.


Lemma generate_feedback_file_all_complete_witness :
  generate_feedback_file Latin1.db insertion_order _default_config
    Vault.geo_tax (u "/vault") Vault.now
    [(u "guerra-do-paraguai.md",
      Note.with_frontmatter Vault.paraguai_note
        [(u "area", VStr (u "História do Brasil"));
         (u "tags", VList [VStr (u "guerra")]);
         (u "relevancia_cacd", VInt 5)])]
    Scenario.empty_fs
  = (false, Scenario.empty_fs).
Proof.
  refine (generate_feedback_file_all_complete Latin1.db insertion_order
            _default_config Vault.geo_tax (u "/vault") Vault.now _
            Scenario.empty_fs _).
  intros k n [E|[]]. injection E as _ <-. vm_compute. reflexivity.
Defined.


Lemma process_feedback_file_consumes_witness :
  fs_read
    (snd (fst (process_feedback_file Latin1.db Scenario.rejecting_yaml
                 _default_config (u "/vault") Vault.geo_marked
                 Vault.geo_notes)))
    (u "/vault/cacd_feedback.md")
  = None.
Proof.
  refine (proj1
            (process_feedback_file_consumes Latin1.db Scenario.rejecting_yaml
               _default_config (u "/vault") Vault.geo_marked _
               Vault.geo_notes _ _ _ _)).
  - unfold fs_wf. vm_compute. repeat constructor; simpl; intuition discriminate.
  - vm_compute. discriminate.
  - vm_compute. reflexivity.
Defined.

Lemma loaded_note_applies_witness :
  exists fs' body,
    _apply_metadata_changes Scenario.rejecting_yaml Vault.no_backup
      Vault.geo_fs Vault.geo_note [(u "area", VStr (u "Geografia"))]
    = (true, fs',
       Note.with_frontmatter Vault.geo_note
         (Dict.update (Note.frontmatter Vault.geo_note)
            [(u "area", VStr (u "Geografia"))]))
    /\ fs_read fs' (u "/vault/geografia.md")
       = Some (rebuild Scenario.rejecting_yaml
                 (Dict.update (Note.frontmatter Vault.geo_note)
                    [(u "area", VStr (u "Geografia"))]) body).
Proof.
  refine (loaded_note_applies Scenario.rejecting_yaml Vault.no_backup
            (u "/vault") Vault.geo_fs (u "/vault/geografia.md") Vault.geo_note
            [(u "area", VStr (u "Geografia"))] _ (or_introl eq_refl) eq_refl).
  vm_compute. reflexivity.
Defined.

Lemma backup_enabled_never_merges_witness :
  exists fs1,
    _apply_metadata_changes Scenario.rejecting_yaml _default_config
      Vault.geo_fs Vault.geo_note [(u "area", VStr (u "Geografia"))]
    = (false, fs1, Vault.geo_note) /\
    fs_read fs1 (u "/vault/" ++ u "geografia" ++ u ".md") = None /\
    fs_read fs1 (u "/vault/" ++ u "geografia" ++ u ".bak")
    = Some (u "geografia") /\
    _apply_metadata_changes Scenario.rejecting_yaml _default_config fs1
      Vault.geo_note [(u "relevancia_cacd", VInt 4)]
    = (false, fs1, Vault.geo_note).
Proof.
  refine (backup_enabled_never_merges Scenario.rejecting_yaml _default_config
            Vault.geo_fs Vault.geo_note [(u "area", VStr (u "Geografia"))]
            [(u "relevancia_cacd", VInt 4)] (u "/vault/") (u "geografia")
            (u "geografia") eq_refl _ eq_refl
            (or_intror (ex_intro _ (u "/vault") eq_refl)) _ _ eq_refl eq_refl).
  - unfold fs_wf. vm_compute. repeat constructor. intros [].
  - discriminate.
  - vm_compute. intuition discriminate.
Defined.

Lemma field_line_read_back_witness :
  firstn (List.length (u "- **" ++ u "Área" ++ u ":** " ++ u "Geografia"))
    (field_block (u "Área") (u "Geografia"))
  = u "- **" ++ u "Área" ++ u ":** " ++ u "Geografia" /\
  field_search (u "- **" ++ u "Área" ++ u ":** " ++ u "Geografia")
  = Some (u "Área", u "Geografia").
Proof.
  refine (field_line_read_back (u "Área") (u "Geografia") _ _ _ _).
  - discriminate.
  - apply label_chars. reflexivity.
  - discriminate.
  - vm_compute. intuition discriminate.
Defined.

Lemma lowers_labels_latin1 : lowers_labels Latin1.db.
Proof.
  vm_compute. reflexivity.
Qed.

Lemma approved_text_field_witness :
  parse_line Latin1.db [u "- **Área:** Geografia"; decision_checked]
    decision_checked (Some (u "geografia"), [])
  = Some (Some (u "geografia"),
          approve [] (u "geografia") (u "area") (VStr (u "Geografia"))).
Proof.
  refine (approved_text_field Latin1.db
            [u "- **Área:** Geografia"; decision_checked] (u "geografia") []
            (u "Área") (u "area") (u "Geografia") lowers_labels_latin1
            (or_introl eq_refl) _ _ _ eq_refl).
  - discriminate.
  - discriminate.
  - vm_compute. intuition discriminate.
Defined.

Lemma approved_tags_witness :
  parse_line Latin1.db
    [u "- **Tags:** "
       ++ join (u ", ")
            (generate_tags Latin1.db insertion_order (u "Guerra e paz na ONU")
               (u "guerra") None);
     decision_checked]
    decision_checked (Some (u "guerra"), [])
  = Some (Some (u "guerra"),
          approve [] (u "guerra") (u "tags")
            (VList (map VStr
                      (generate_tags Latin1.db insertion_order
                         (u "Guerra e paz na ONU") (u "guerra") None)))).
Proof.
  refine (approved_tags Latin1.db insertion_order _ (u "guerra") []
            (u "Guerra e paz na ONU") (u "guerra") None lowers_labels_latin1
            _ _ _).
  - discriminate.
  - vm_compute. discriminate.
  - vm_compute. reflexivity.
Defined.

Lemma approved_connections_witness :
  parse_line Latin1.db
    [u "- **Conexões:** Guerra do Paraguai, guerra"; decision_checked]
    decision_checked (Some (u "urbanizacao-brasil"), [])
  = Some (Some (u "urbanizacao-brasil"),
          approve [] (u "urbanizacao-brasil") (u "conexoes")
            (VList [VStr (u "Guerra do Paraguai"); VStr (u "guerra")])).
Proof.
  refine (approved_connections Latin1.db
            [u "- **Conexões:** Guerra do Paraguai, guerra"; decision_checked]
            (u "urbanizacao-brasil") []
            [u "Guerra do Paraguai"; u "guerra"] lowers_labels_latin1
            _ _ _ eq_refl).
  - discriminate.
  - discriminate.
  - repeat constructor; apply list_itemb_ok; reflexivity.
Defined.

Lemma approved_relevance_witness :
  parse_line Latin1.db [u "- **Relevância CACD:** 4/5"; decision_checked]
    decision_checked (Some (u "geografia"), [])
  = Some (Some (u "geografia"),
          approve [] (u "geografia") (u "relevancia_cacd") (VInt 4)).
Proof.
  refine (approved_relevance Latin1.db
            [u "- **Relevância CACD:** 4/5"; decision_checked] (u "geografia")
            [] 4%Z lowers_labels_latin1 _ _ eq_refl).
  - discriminate.
  - lia.
Defined.

Lemma connection_with_comma_splits_witness :
  exists items,
    comma_list (join (u ", ") [u "Brasil, Argentina e Uruguai"; u "guerra"])
    = VList items /\
    List.length [u "Brasil, Argentina e Uruguai"; u "guerra"]
    < List.length items.
Proof.
  refine (connection_with_comma_splits
            [u "Brasil, Argentina e Uruguai"; u "guerra"]
            (u "Brasil, Argentina e Uruguai") (or_introl eq_refl) _).
  vm_compute. intuition.
Defined.
